(** * EDNAG: the diffusion step, the Bayesian estimator and the generator

    A shallow embedding of [NAS-Bench-201/utils/predictor.py]:
    [ddpm_sigma], [ddim_step], the class [BayesianEstimator] and the class
    [BayesianGenerator].

    Numbers.  The embedding is in exact arithmetic.  A Python [float] that the
    caller passes in (the schedule coefficients, the noise scale, the
    bandwidth) is a real number.  In Python [r ** 0.5] of a negative float is a
    complex number (the principal root), and multiplying a tensor by a complex
    scalar gives a complex tensor, so the values computed from the scalars are
    complex numbers [C], with the reals embedded by [RtoC].  Rounding and
    overflow of binary floating point are outside this embedding; the module
    [Float32] embeds the estimator a second time in IEEE arithmetic (Python
    floats in binary64, tensor elements in binary32), where an addition
    can overflow.

    Division.  Dividing Python floats by zero raises [ZeroDivisionError].
    Dividing tensor elements by zero raises nothing: IEEE arithmetic gives an
    infinity or a NaN.  A tensor element is therefore an [elt := option C],
    where [None] stands for an element that is, or was computed from, an
    infinity or a NaN; the embedding does not follow values past that point.

    Shapes.  A 2-D tensor carries its number of columns, as [x.shape[1]] does
    for a tensor without rows.  Elementwise operations are embedded at the
    shapes the docstrings give (both operands [n x d]); broadcasting between
    different shapes is not embedded. *)

From Stdlib Require Import Strings.String.
From Stdlib Require Floats.SpecFloat.
From Stdlib Require Import Reals Lra Lia List Bool Arith Permutation ZArith.
Import ListNotations.

Local Open Scope R_scope.

(** ** Complex numbers *)

Definition C : Type := (R * R)%type.

Definition RtoC (r : R) : C := (r, 0).
Definition C0 : C := RtoC 0.
Definition Cre (z : C) : R := fst z.
Definition Cim (z : C) : R := snd z.

Definition Cadd (a b : C) : C := (Cre a + Cre b, Cim a + Cim b).
Definition Csub (a b : C) : C := (Cre a - Cre b, Cim a - Cim b).
Definition Cneg (a : C) : C := (- Cre a, - Cim a).
Definition Cmul (a b : C) : C :=
  (Cre a * Cre b - Cim a * Cim b, Cre a * Cim b + Cim a * Cre b).
Definition Cnorm2 (z : C) : R := Cre z * Cre z + Cim z * Cim z.
Definition Cdiv (a b : C) : C :=
  ((Cre a * Cre b + Cim a * Cim b) / Cnorm2 b,
   (Cim a * Cre b - Cre a * Cim b) / Cnorm2 b).
Definition Cmod (z : C) : R := sqrt (Cnorm2 z).

(** [z ** 0.5]: the principal square root, which is what Python computes for a
    complex [z] and for a negative float. *)
Definition pow_half (z : C) : C :=
  (sqrt ((Cmod z + Cre z) / 2),
   (if Rlt_dec (Cim z) 0 then -1 else 1) * sqrt ((Cmod z - Cre z) / 2)).

(** [z ** 2] *)
Definition pow2 (z : C) : C := Cmul z z.

Definition Cexp (z : C) : C := (exp (Cre z) * cos (Cim z), exp (Cre z) * sin (Cim z)).

Definition C_eq_dec (a b : C) : {a = b} + {a <> b}.
Proof.
  destruct a as [ar ai], b as [br bi].
  destruct (Req_dec_T ar br) as [Hr | Hr].
  - destruct (Req_dec_T ai bi) as [Hi | Hi].
    + left. now subst.
    + right. intros E. now inversion E.
  - right. intros E. now inversion E.
Defined.

(** The literal [1e-9]. *)
Definition eps9 : R := / 1000000000.

(** ** Python results: a value or a raised exception *)

Inductive exn : Type :=
| TypeError
| ValueError
| RuntimeError
| ZeroDivisionError
| NotImplementedError.

Inductive outcome (A : Type) : Type :=
| Ret (a : A)
| Raise (e : exn).
Arguments Ret {A} a.
Arguments Raise {A} e.

Definition bind {A B : Type} (c : outcome A) (k : A -> outcome B) : outcome B :=
  match c with
  | Ret a => k a
  | Raise e => Raise e
  end.

Declare Scope py_scope.
Delimit Scope py_scope with py.
Notation "x <- c ;; k" := (bind c (fun x => k))
  (at level 61, c at next level, right associativity) : py_scope.
Local Open Scope py_scope.

(** [a / b] on Python floats. *)
Definition float_div (a b : R) : outcome R :=
  if Req_dec_T b 0 then Raise ZeroDivisionError else Ret (a / b).

(** [a * b] where [a] is a number and [b] is a float or [None]: Python has no
    product of a number and [None]. *)
Definition py_mul (a : C) (b : option R) : outcome (option C) :=
  match b with
  | Some r => Ret (Some (Cmul a (RtoC r)))
  | None => Raise TypeError
  end.

(** ** Tensor elements and tensors *)

Definition elt : Type := option C.

Definition elift1 (f : C -> C) (a : elt) : elt := option_map f a.
Definition elift2 (f : C -> C -> C) (a b : elt) : elt :=
  match a, b with
  | Some u, Some v => Some (f u v)
  | _, _ => None
  end.

Definition eadd : elt -> elt -> elt := elift2 Cadd.
Definition esub : elt -> elt -> elt := elift2 Csub.
Definition emul : elt -> elt -> elt := elift2 Cmul.
Definition eneg : elt -> elt := elift1 Cneg.
Definition eabs : elt -> elt := elift1 (fun z => RtoC (Cmod z)).
Definition eexp : elt -> elt := elift1 Cexp.
Definition epow2 : elt -> elt := elift1 pow2.
Definition ediv (a b : elt) : elt :=
  match a, b with
  | Some u, Some v => if C_eq_dec v C0 then None else Some (Cdiv u v)
  | _, _ => None
  end.

Definition escalar (c : C) : elt := Some c.

Fixpoint zip_with {A B D : Type} (f : A -> B -> D) (l : list A) (m : list B) : list D :=
  match l, m with
  | a :: l', b :: m' => f a b :: zip_with f l' m'
  | _, _ => []
  end.

Fixpoint imap_from {A B : Type} (n : nat) (f : nat -> A -> B) (l : list A) : list B :=
  match l with
  | [] => []
  | a :: l' => f n a :: imap_from (S n) f l'
  end.
Definition imap {A B : Type} (f : nat -> A -> B) (l : list A) : list B := imap_from 0 f l.

Record tensor : Type := Tensor { ncols : nat; rows : list (list elt) }.

Definition nrows (t : tensor) : nat := length (rows t).

Definition tmap (f : elt -> elt) (t : tensor) : tensor :=
  Tensor (ncols t) (map (map f) (rows t)).
Definition tzip (f : elt -> elt -> elt) (a b : tensor) : tensor :=
  Tensor (ncols a) (zip_with (zip_with f) (rows a) (rows b)).

(** [c * t], [t / c], [a - b], [a + b] *)
Definition smul (c : C) (t : tensor) : tensor := tmap (emul (escalar c)) t.
Definition sdiv (t : tensor) (c : C) : tensor := tmap (fun e => ediv e (escalar c)) t.
Definition tsub : tensor -> tensor -> tensor := tzip esub.
Definition tadd : tensor -> tensor -> tensor := tzip eadd.

(** [torch.randn_like(t)]: a tensor of the shape of [t] whose element [(i, j)]
    is the draw [rng i j] of the random source at this call. *)
Definition randn_like (rng : nat -> nat -> C) (t : tensor) : tensor :=
  Tensor (ncols t) (imap (fun i r => imap (fun j _ => Some (rng i j)) r) (rows t)).

(** [torch.cat([a, b], dim=0)] *)
Definition cat (a b : tensor) : outcome tensor :=
  if Nat.eqb (ncols a) (ncols b) then Ret (Tensor (ncols a) (rows a ++ rows b))
  else Raise RuntimeError.

(** ** [ddpm_sigma] and [ddim_step] *)

Definition ddpm_sigma (alphat alphatp : R) : outcome C :=
  q <- float_div (1 - alphatp) (1 - alphat) ;;
  r <- float_div alphat alphatp ;;
  Ret (pow_half (RtoC (q * (1 - r)))).

Definition ddim_step (xt x0 : tensor) (alphas : R * R) (noise : option R)
    (rng : nat -> nat -> C) : outcome tensor :=
  let '(alphat, alphatp) := alphas in
  sigma <- (s <- ddpm_sigma alphat alphatp ;; py_mul s noise) ;;
  let eps := sdiv (tsub xt (smul (pow_half (RtoC alphat)) x0))
                  (pow_half (RtoC (1 - alphat))) in
  sigma <- match sigma with
           | None => ddpm_sigma alphat alphatp
           | Some s => Ret s
           end ;;
  Ret (tadd (tadd (smul (pow_half (RtoC alphatp)) x0)
                  (smul (pow_half (Csub (RtoC (1 - alphatp)) (pow2 sigma))) eps))
            (smul sigma (randn_like rng x0))).

(** ** Methods: functions of the object's state

    A method of an object of state [S] takes the state and gives back its
    result, or the exception it raised, together with the state it left. *)

Definition method (S A : Type) : Type := S -> outcome A * S.

Definition mret {S A : Type} (a : A) : method S A := fun s => (Ret a, s).
Definition mraise {S A : Type} (e : exn) : method S A := fun s => (Raise e, s).
Definition mbind {S A B : Type} (m : method S A) (k : A -> method S B) : method S B :=
  fun s =>
    match m s with
    | (Ret a, s') => k a s'
    | (Raise e, s') => (Raise e, s')
    end.
Definition get {S : Type} : method S S := fun s => (Ret s, s).
Definition put {S : Type} (s : S) : method S unit := fun _ => (Ret tt, s).
Definition lift {S A : Type} (c : outcome A) : method S A := fun s => (c, s).

Declare Scope meth_scope.
Delimit Scope meth_scope with meth.
Notation "x <- c ;; k" := (mbind c (fun x => k))
  (at level 61, c at next level, right associativity) : meth_scope.

(** [torch.sum(v)] and [torch.sum(t, dim=0)] for a tensor of [d] columns *)
Definition esum (v : list elt) : elt := fold_right eadd (Some C0) v.
Definition sum_dim0 (d : nat) (t : list (list elt)) : list elt :=
  fold_right (zip_with eadd) (repeat (Some C0) d) t.

(** ** [BayesianEstimator] *)

Module BayesianEstimator.

Record t : Type := Build {
  x : tensor;
  fitness : list elt;
  alpha : R;
  density_method : string;
  h : R
}.

Definition set_x (self : t) (v : tensor) : t :=
  Build v (fitness self) (alpha self) (density_method self) (h self).
Definition set_fitness (self : t) (v : list elt) : t :=
  Build (x self) v (alpha self) (density_method self) (h self).

(** [__init__]: the fields are assigned and then the density is checked; an
    exception leaves the caller without an object. *)
Definition init (x : tensor) (fitness : list elt) (alpha : R) (density : string) (h : R)
    : outcome t :=
  let self := Build x fitness alpha density h in
  if negb (existsb (String.eqb density) ["uniform"%string])
  then Raise NotImplementedError
  else Ret self.

Definition append (estimator : t) : method t unit :=
  (self <- get ;;
   new_x <- lift (cat (x self) (x estimator)) ;;
   _ <- put (set_x self new_x) ;;
   self <- get ;;
   put (set_fitness self (fitness self ++ fitness estimator)))%meth.

(** [density]: [torch.ones(M) / M]; for another method the Python function
    falls off its end and returns [None]. *)
Definition density (x_t : tensor) : method t (option (list elt)) :=
  (self <- get ;;
   if String.eqb (density_method self) "uniform"
   then mret (Some (map (fun e => ediv e (escalar (RtoC (INR (nrows x_t)))))
                        (repeat (escalar (RtoC 1)) (nrows x_t))))
   else mret None)%meth.

(** [norm]: [torch.abs(x).squeeze(-1)] when the last dimension is 1, else
    [torch.norm(x, dim=-1)], the root of the sum of the squared moduli. *)
Definition norm (v : tensor) : list elt :=
  if Nat.eqb (ncols v) 1
  then map (fun r => eabs (nth 0 r None)) (rows v)
  else map (fun r => elift1 pow_half (esum (map (elift1 (fun z => RtoC (Cnorm2 z))) r)))
           (rows v).

(** [x - mu] for a row [x] and a tensor [mu] whose rows have its length. *)
Definition row_sub (r : list elt) (mu : tensor) : tensor :=
  Tensor (ncols mu) (map (fun m => zip_with esub r m) (rows mu)).

Definition gaussian_prob (x_t : list elt) (mu : tensor) (sigma : C) : list elt :=
  let dist := norm (row_sub x_t mu) in
  map (fun d => eexp (ediv (eneg (epow2 d)) (escalar (Cmul (RtoC 2) (pow2 sigma))))) dist.

(** [_estimate] for one query row [x_t] and its density weight [p_x_t]; it
    reads [self] and assigns nothing. *)
Definition _estimate (self : t) (x_t : list elt) (p_x_t : elt) : list elt :=
  let mu := tmap (fun e => emul e (escalar (pow_half (RtoC (alpha self))))) (x self) in
  let sigma := pow_half (RtoC (1 - alpha self)) in
  let p_diffusion := gaussian_prob x_t mu sigma in
  let prob :=
    zip_with (fun f p =>
                ediv (emul (eadd f (escalar (RtoC eps9))) (eadd p (escalar (RtoC eps9))))
                     (eadd p_x_t (escalar (RtoC eps9))))
             (fitness self) p_diffusion in
  let z := esum prob in
  let origin :=
    map (fun s => ediv s (eadd z (escalar (RtoC eps9))))
        (sum_dim0 (ncols (x self))
                  (zip_with (fun p r => map (emul p) r) prob (rows (x self)))) in
  origin.

(** [estimate]: [torch.vmap(self._estimate, (0, 0))] maps [_estimate] over the
    rows of [x_t] paired with the entries of [p_x_t] and stacks the results;
    it refuses an input that is [None]. *)
Definition estimate (x_t : tensor) : method t tensor :=
  (p_x_t <- density x_t ;;
   self <- get ;;
   match p_x_t with
   | None => mraise ValueError
   | Some p => mret (Tensor (ncols (x self)) (zip_with (_estimate self) (rows x_t) p))
   end)%meth.

(** [__call__] *)
Definition call (x_t : tensor) : method t tensor := estimate x_t.

End BayesianEstimator.

(** ** [BayesianGenerator] *)

Module BayesianGenerator.

(** What [generate] returns: [x_next], or the pair [(x_next, x0_est)]. *)
Inductive result : Type :=
| Next (x_next : tensor)
| NextAndOrigin (x_next x0_est : tensor).

Record t : Type := Build {
  x : tensor;
  fitness : list elt;
  elite_strategy : bool;
  alpha : R;
  alpha_past : R;
  estimator : BayesianEstimator.t
}.

Definition set_estimator (self : t) (e : BayesianEstimator.t) : t :=
  Build (x self) (fitness self) (elite_strategy self) (alpha self) (alpha_past self) e.

(** A method of the owned estimator, run from a method of the generator. *)
Definition on_estimator {A : Type} (m : method BayesianEstimator.t A) : method t A :=
  fun self => let (r, e) := m (estimator self) in (r, set_estimator self e).

Definition init (x : tensor) (fitness : list elt) (alpha : R * R) (density : string)
    (h : R) (elite_strategy : bool) : outcome t :=
  let '(alpha_, alpha_past_) := alpha in
  (e <- BayesianEstimator.init x fitness alpha_ density h ;;
   Ret (Build x fitness elite_strategy alpha_ alpha_past_ e))%py.

Section Generate.

(** [utils.corrector.normalize], which is not part of the embedded file. *)
Variable normalize : tensor -> outcome tensor.

Definition generate (x : tensor) (noise : option R) (elite_rate : R) (return_x0 : bool)
    (rng : nat -> nat -> C) : method t result :=
  (x0_est <- on_estimator (BayesianEstimator.call x) ;;
   self <- get ;;
   x_next <- lift (ddim_step x x0_est (alpha self, alpha_past self) noise rng) ;;
   x_next <- lift (normalize x_next) ;;
   if return_x0 then mret (NextAndOrigin x_next x0_est) else mret (Next x_next))%meth.

End Generate.

End BayesianGenerator.

(** ** Shapes, entries and the tensors of real matrices *)

Definition tshape (t : tensor) (m d : nat) : Prop :=
  ncols t = d /\ length (rows t) = m /\ Forall (fun r => length r = d) (rows t).

Definition tget (t : tensor) (i j : nat) : option elt :=
  match nth_error (rows t) i with
  | Some r => nth_error r j
  | None => None
  end.

(** An element that is a number: in exact arithmetic, one that was not
    computed from a division by zero. *)
Definition finite (e : elt) : Prop := exists z : C, e = Some z.
Definition tfinite (t : tensor) : Prop := Forall (Forall finite) (rows t).

Definition real_vector (v : list R) : list elt := map (fun r => Some (RtoC r)) v.
Definition real_tensor (d : nat) (m : list (list R)) : tensor := Tensor d (map real_vector m).

Definition mshape (m : list (list R)) (n d : nat) : Prop :=
  length m = n /\ Forall (fun r => length r = d) m.

(** The rows of [t] taken in the order [p] gives. *)
Definition permute_rows (p : list nat) (t : tensor) : tensor :=
  Tensor (ncols t) (map (fun i => nth i (rows t) []) p).

(** ** The step and the estimate as the specification writes them *)

Definition spec_sigma (alpha alpha_past noise_scale : R) : C :=
  Cmul (RtoC noise_scale)
       (pow_half (RtoC ((1 - alpha_past) / (1 - alpha) * (1 - alpha / alpha_past)))).

Definition spec_eps (alpha : R) (xt x0 : C) : C :=
  Cdiv (Csub xt (Cmul (pow_half (RtoC alpha)) x0)) (pow_half (RtoC (1 - alpha))).

Definition spec_x_next (alpha alpha_past noise_scale : R) (xt x0 e : C) : C :=
  let sigma := spec_sigma alpha alpha_past noise_scale in
  Cadd (Cadd (Cmul (pow_half (RtoC alpha_past)) x0)
             (Cmul (pow_half (Csub (RtoC (1 - alpha_past)) (Cmul sigma sigma)))
                   (spec_eps alpha xt x0)))
       (Cmul sigma e).

(** The same step over the reals, where every root is taken of a number that
    is not negative. *)
Definition real_sigma (alpha alpha_past noise_scale : R) : R :=
  noise_scale * sqrt ((1 - alpha_past) / (1 - alpha) * (1 - alpha / alpha_past)).

Definition real_x_next (alpha alpha_past noise_scale : R) (xt x0 e : R) : R :=
  let sigma := real_sigma alpha alpha_past noise_scale in
  let eps := (xt - sqrt alpha * x0) / sqrt (1 - alpha) in
  sqrt alpha_past * x0 + sqrt (1 - alpha_past - sigma * sigma) * eps + sigma * e.

Definition rsum (v : list R) : R := fold_right Rplus 0 v.

(** The squared Euclidean distance of two points. *)
Definition sq_dist (a b : list R) : R :=
  rsum (zip_with (fun u v => (u - v) * (u - v)) a b).

(** The weight of the stored sample [x_i] of fitness [f_i] for the query point
    [x_t_j] of density weight [d_j]. *)
Definition spec_weight (alpha d_j : R) (x_t_j : list R) (f_i : R) (x_i : list R) : R :=
  (f_i + eps9)
  * (exp (- sq_dist x_t_j (map (Rmult (sqrt alpha)) x_i) / (2 * (1 - alpha))) + eps9)
  / (d_j + eps9).

Definition spec_weights (alpha : R) (m : nat) (x : list (list R)) (fitness : list R)
    (x_t_j : list R) : list R :=
  zip_with (spec_weight alpha (1 / INR m) x_t_j) fitness x.

(** Numerator and denominator of coordinate [k] of the estimate for [x_t_j]. *)
Definition spec_num (alpha : R) (m : nat) (x : list (list R)) (fitness : list R)
    (x_t_j : list R) (k : nat) : R :=
  rsum (zip_with (fun w_i x_i => w_i * nth k x_i 0) (spec_weights alpha m x fitness x_t_j) x).

Definition spec_den (alpha : R) (m : nat) (x : list (list R)) (fitness : list R)
    (x_t_j : list R) : R :=
  rsum (spec_weights alpha m x fitness x_t_j) + eps9.

(** The sums of the columns of a matrix of [d] columns. *)
Definition col_sums (d : nat) (m : list (list R)) : list R :=
  fold_right (zip_with Rplus) (repeat 0 d) m.

(** [torch.norm(r, dim=-1)] of one row: the root of the sum of the squared
    moduli. *)
Definition euclidean_norm (r : list elt) : elt :=
  elift1 pow_half (esum (map (elift1 (fun z => RtoC (Cnorm2 z))) r)).

(** The estimator after appending the estimators of [others] one by one; an
    [append] that raises leaves the estimator as it was. *)
Definition append_all (others : list BayesianEstimator.t) (self : BayesianEstimator.t)
    : BayesianEstimator.t :=
  fold_left (fun s o => snd (BayesianEstimator.append o s)) others self.

(** Lines 72 to 75 of [_estimate]: the estimate computed from the likelihoods
    [p_diffusion] of the stored samples and the density weight [p_x_t].
    [_estimate] is this function at the likelihoods [gaussian_prob] returns
    (lemma [_estimate_from_likelihoods]). *)
Definition estimate_from_likelihoods (self : BayesianEstimator.t) (p_diffusion : list elt)
    (p_x_t : elt) : list elt :=
  let prob :=
    zip_with (fun f p =>
                ediv (emul (eadd f (escalar (RtoC eps9))) (eadd p (escalar (RtoC eps9))))
                     (eadd p_x_t (escalar (RtoC eps9))))
             (BayesianEstimator.fitness self) p_diffusion in
  let z := esum prob in
  map (fun s => ediv s (eadd z (escalar (RtoC eps9))))
      (sum_dim0 (ncols (BayesianEstimator.x self))
                (zip_with (fun p r => map (emul p) r) prob
                          (rows (BayesianEstimator.x self)))).

(** ** The estimator in IEEE arithmetic

    The same methods of [BayesianEstimator] on floating-point numbers, as
    [SpecFloat] specifies them: a Python float ([alpha], the literal [1e-9])
    is a binary64 number, an element of a tensor a binary32 number (the
    default element type of torch).  Every operation rounds to nearest, ties
    to even; a result beyond the largest binary32 number is an infinity, and
    [inf - inf], [inf / inf], [0 / 0] and [0 * inf] are NaN. *)

Module Float32.

Import SpecFloat.

(** Operations of Python floats. *)
Definition f64_sub : spec_float -> spec_float -> spec_float := SFsub 53 1024.
Definition f64_mul : spec_float -> spec_float -> spec_float := SFmul 53 1024.
Definition f64_div : spec_float -> spec_float -> spec_float := SFdiv 53 1024.
Definition f64_sqrt : spec_float -> spec_float := SFsqrt 53 1024.
Definition f64_of_Z (n : Z) : spec_float := binary_normalize 53 1024 n 0 false.

(** Operations of tensor elements. *)
Definition add : spec_float -> spec_float -> spec_float := SFadd 24 128.
Definition sub : spec_float -> spec_float -> spec_float := SFsub 24 128.
Definition mul : spec_float -> spec_float -> spec_float := SFmul 24 128.
Definition div : spec_float -> spec_float -> spec_float := SFdiv 24 128.
Definition sqrt : spec_float -> spec_float := SFsqrt 24 128.
Definition of_Z (n : Z) : spec_float := binary_normalize 24 128 n 0 false.

(** A Python number that meets a tensor in an operation is first rounded to
    the element type of the tensor. *)
Definition scalar (v : spec_float) : spec_float :=
  match v with
  | S754_finite s m e => binary_round 24 128 s m e
  | _ => v
  end.

(** The literal [1e-9]: the binary64 number nearest to [1 / 10^9]. *)
Definition lit_1e_9 : spec_float := f64_div (f64_of_Z 1) (f64_of_Z 1000000000).


(** [0 <= a <= 1] *)
Definition in_unit (a : spec_float) : bool :=
  SFleb (f64_of_Z 0) a && SFleb a (f64_of_Z 1).

Record tensor : Type := Tensor { ncols : nat; rows : list (list spec_float) }.

Definition nrows (t : tensor) : nat := length (rows t).

(** [torch.sum(v)] and [torch.sum(t, dim=0)], adding in the order of the
    index. *)
Definition sum (v : list spec_float) : spec_float := fold_left add v (S754_zero false).
Definition sum_dim0 (d : nat) (t : list (list spec_float)) : list spec_float :=
  fold_left (zip_with add) t (repeat (S754_zero false) d).

(** The state of an estimator.  The coefficient [alpha] is a float in
    [[0, 1]], as a noise schedule gives it: there [alpha ** 0.5] and
    [(1 - alpha) ** 0.5] are floats, taken as the correctly rounded roots
    (of a negative float Python returns a complex number, which this
    embedding does not hold). *)
Record t : Type := Build {
  x : tensor;
  fitness : list spec_float;
  alpha : spec_float;
  alpha_in_unit : in_unit alpha = true;
  density_method : string;
  h : spec_float
}.

Section Exp.

(** [torch.exp] of a finite number that is not zero: the library's
    approximation of the exponential, which is not fixed here. *)
Variable exp_finite : spec_float -> spec_float.

(** [torch.exp]; [exp(+-0) = 1], [exp(-inf) = 0], [exp(inf) = inf] and
    [exp(nan) = nan] are exact. *)
Definition exp (v : spec_float) : spec_float :=
  match v with
  | S754_zero _ => of_Z 1
  | S754_infinity false => S754_infinity false
  | S754_infinity true => S754_zero false
  | S754_nan => S754_nan
  | S754_finite _ _ _ => exp_finite v
  end.

(** [density]: [torch.ones(M) / M], or [None] for another method. *)
Definition density (self : t) (x_t : tensor) : option (list spec_float) :=
  if String.eqb (density_method self) "uniform"
  then Some (map (fun e => div e (of_Z (Z.of_nat (nrows x_t))))
                 (repeat (of_Z 1) (nrows x_t)))
  else None.

(** [norm]: [torch.abs(x).squeeze(-1)] when the last dimension is 1, else
    [torch.norm(x, dim=-1)], the root of the sum of the squares. *)
Definition norm (v : tensor) : list spec_float :=
  if Nat.eqb (ncols v) 1
  then map (fun r => SFabs (nth 0 r S754_nan)) (rows v)
  else map (fun r => sqrt (sum (map (fun e => mul e e) r))) (rows v).

Definition row_sub (r : list spec_float) (mu : tensor) : tensor :=
  Tensor (ncols mu) (map (fun m => zip_with sub r m) (rows mu)).

Definition gaussian_prob (x_t : list spec_float) (mu : tensor) (sigma : spec_float)
    : list spec_float :=
  let dist := norm (row_sub x_t mu) in
  map (fun d => exp (div (SFopp (mul d d))
                         (scalar (f64_mul (f64_of_Z 2) (f64_mul sigma sigma)))))
      dist.

Definition _estimate (self : t) (x_t : list spec_float) (p_x_t : spec_float)
    : list spec_float :=
  let mu := Tensor (ncols (x self))
                   (map (map (fun e => mul e (scalar (f64_sqrt (alpha self)))))
                        (rows (x self))) in
  let sigma := f64_sqrt (f64_sub (f64_of_Z 1) (alpha self)) in
  let p_diffusion := gaussian_prob x_t mu sigma in
  let prob :=
    zip_with (fun f p => div (mul (add f (scalar lit_1e_9)) (add p (scalar lit_1e_9)))
                             (add p_x_t (scalar lit_1e_9)))
             (fitness self) p_diffusion in
  let z := sum prob in
  let origin :=
    map (fun s => div s (add z (scalar lit_1e_9)))
        (sum_dim0 (ncols (x self))
                  (zip_with (fun p r => map (mul p) r) prob (rows (x self)))) in
  origin.

Definition estimate (self : t) (x_t : tensor) : outcome tensor :=
  match density self x_t with
  | None => Raise ValueError
  | Some p => Ret (Tensor (ncols (x self)) (zip_with (_estimate self) (rows x_t) p))
  end.

End Exp.

End Float32.

(** ** Arithmetic of the embedded reals *)

Lemma C_eq (a b : C) : Cre a = Cre b -> Cim a = Cim b -> a = b.
Proof. destruct a, b; simpl; intros; subst; reflexivity. Qed.

Ltac c_ring := apply C_eq; simpl; ring.

Lemma Cmul_comm (a b : C) : Cmul a b = Cmul b a.
Proof. c_ring. Qed.

Lemma Cmul_0_r (a : C) : Cmul a (RtoC 0) = C0.
Proof. c_ring. Qed.

Lemma Cmul_0_l (a : C) : Cmul C0 a = C0.
Proof. c_ring. Qed.

Lemma RtoC_add (a b : R) : Cadd (RtoC a) (RtoC b) = RtoC (a + b).
Proof. c_ring. Qed.

Lemma RtoC_sub (a b : R) : Csub (RtoC a) (RtoC b) = RtoC (a - b).
Proof. c_ring. Qed.

Lemma RtoC_mul (a b : R) : Cmul (RtoC a) (RtoC b) = RtoC (a * b).
Proof. c_ring. Qed.

Lemma RtoC_neg (a : R) : Cneg (RtoC a) = RtoC (- a).
Proof. c_ring. Qed.

Lemma RtoC_div (a b : R) : b <> 0 -> Cdiv (RtoC a) (RtoC b) = RtoC (a / b).
Proof. intros Hb. apply C_eq; unfold Cdiv, Cnorm2; simpl; field; nra. Qed.

Lemma RtoC_inj (a b : R) : RtoC a = RtoC b -> a = b.
Proof. intros E. now inversion E. Qed.

Lemma RtoC_neq_0 (a : R) : a <> 0 -> RtoC a <> C0.
Proof. intros Ha E. apply Ha. now apply RtoC_inj. Qed.

Lemma Cnorm2_RtoC (a : R) : Cnorm2 (RtoC a) = a * a.
Proof. unfold Cnorm2; simpl; ring. Qed.

Lemma Cmod_RtoC (a : R) : Cmod (RtoC a) = Rabs a.
Proof.
  unfold Cmod. rewrite Cnorm2_RtoC. apply sqrt_Rsqr_abs.
Qed.

Lemma pow_half_RtoC (a : R) : 0 <= a -> pow_half (RtoC a) = RtoC (sqrt a).
Proof.
  intros Ha. unfold pow_half. rewrite Cmod_RtoC, Rabs_pos_eq by assumption.
  apply C_eq; simpl.
  - f_equal. field.
  - replace ((a - a) / 2) with 0 by field. rewrite sqrt_0. ring.
Qed.

Lemma pow_half_RtoC_neg (a : R) : a < 0 -> pow_half (RtoC a) = (0, sqrt (- a)).
Proof.
  intros Ha. unfold pow_half. rewrite Cmod_RtoC, Rabs_left by assumption.
  apply C_eq; simpl.
  - replace ((- a + a) / 2) with 0 by field. apply sqrt_0.
  - destruct (Rlt_dec 0 0) as [H | _]; [lra |].
    replace ((- a - a) / 2) with (- a) by field. ring.
Qed.

(** [pow_half] is a square root: its square is its argument. *)
Lemma pow_half_sqr (z : C) : pow2 (pow_half z) = z.
Proof.
  destruct z as [x y]. unfold pow2, pow_half, Cmul, Cmod, Cnorm2; simpl.
  set (m := sqrt (x * x + y * y)).
  assert (Hmm : m * m = x * x + y * y) by (apply sqrt_sqrt; nra).
  assert (Hm0 : 0 <= m) by apply sqrt_pos.
  assert (Hmx : Rabs x <= m).
  { rewrite <- (sqrt_Rsqr_abs x). apply sqrt_le_1_alt. unfold Rsqr. nra. }
  assert (HA : 0 <= (m + x) / 2) by (unfold Rabs in Hmx; destruct (Rcase_abs x); lra).
  assert (HB : 0 <= (m - x) / 2) by (unfold Rabs in Hmx; destruct (Rcase_abs x); lra).
  assert (HAB : sqrt ((m + x) / 2) * sqrt ((m - x) / 2) = Rabs y / 2).
  { rewrite <- sqrt_mult by assumption.
    replace ((m + x) / 2 * ((m - x) / 2)) with (Rsqr (y / 2)) by (unfold Rsqr; nra).
    rewrite sqrt_Rsqr_abs. unfold Rdiv. rewrite Rabs_mult, (Rabs_pos_eq (/ 2)); lra. }
  set (sa := sqrt ((m + x) / 2)) in *. set (sb := sqrt ((m - x) / 2)) in *.
  assert (Hsa : sa * sa = (m + x) / 2) by (apply sqrt_sqrt; assumption).
  assert (Hsb : sb * sb = (m - x) / 2) by (apply sqrt_sqrt; assumption).
  apply C_eq; simpl.
  - destruct (Rlt_dec y 0); nra.
  - destruct (Rlt_dec y 0) as [Hy | Hy].
    + rewrite Rabs_left in HAB by assumption. nra.
    + rewrite Rabs_pos_eq in HAB by lra. nra.
Qed.

Lemma pow2_RtoC (a : R) : pow2 (RtoC a) = RtoC (a * a).
Proof. unfold pow2. apply RtoC_mul. Qed.

Lemma Cexp_RtoC (a : R) : Cexp (RtoC a) = RtoC (exp a).
Proof. unfold Cexp; apply C_eq; simpl; rewrite ?cos_0, ?sin_0; ring. Qed.

Lemma ediv_real (a b : R) :
  b <> 0 -> ediv (Some (RtoC a)) (Some (RtoC b)) = Some (RtoC (a / b)).
Proof.
  intros Hb. unfold ediv. destruct (C_eq_dec (RtoC b) C0) as [E | _].
  - exfalso. now apply (RtoC_neq_0 b).
  - now rewrite RtoC_div.
Qed.

Lemma eps9_pos : 0 < eps9.
Proof. unfold eps9. apply Rinv_0_lt_compat. lra. Qed.

(** ** Lists, entries and shapes *)

Lemma nth_error_zip_with {A B D : Type} (f : A -> B -> D) (l : list A) (m : list B) (i : nat) :
  nth_error (zip_with f l m) i =
  match nth_error l i, nth_error m i with
  | Some a, Some b => Some (f a b)
  | _, _ => None
  end.
Proof.
  revert m i. induction l as [| a l IH]; intros m i.
  - destruct i; reflexivity.
  - destruct m as [| b m].
    + destruct i; simpl; [reflexivity |]. now destruct (nth_error l i).
    + destruct i; simpl; [reflexivity | apply IH].
Qed.

Lemma nth_error_imap_from {A B : Type} (f : nat -> A -> B) (l : list A) (n i : nat) :
  nth_error (imap_from n f l) i = option_map (f (n + i)%nat) (nth_error l i).
Proof.
  revert n i. induction l as [| a l IH]; intros n i.
  - destruct i; reflexivity.
  - destruct i; simpl.
    + now rewrite Nat.add_0_r.
    + rewrite IH. now rewrite Nat.add_succ_r.
Qed.

Lemma length_zip_with {A B D : Type} (f : A -> B -> D) (l : list A) (m : list B) :
  length (zip_with f l m) = Nat.min (length l) (length m).
Proof.
  revert m. induction l as [| a l IH]; intros [| b m]; simpl; auto.
Qed.

Lemma length_imap_from {A B : Type} (f : nat -> A -> B) (l : list A) (n : nat) :
  length (imap_from n f l) = length l.
Proof. revert n. induction l; intros n; simpl; auto. Qed.

Lemma zip_with_repeat {A B D : Type} (f : A -> B -> D) (l : list A) (b : B) :
  zip_with f l (repeat b (length l)) = map (fun a => f a b) l.
Proof. induction l as [| a l IH]; simpl; [reflexivity | now rewrite IH]. Qed.

Lemma tget_tmap (f : elt -> elt) (t : tensor) (i j : nat) :
  tget (tmap f t) i j = option_map f (tget t i j).
Proof.
  unfold tget, tmap; simpl. rewrite nth_error_map.
  destruct (nth_error (rows t) i) as [r |]; simpl; [apply nth_error_map | reflexivity].
Qed.

Lemma tget_tzip (f : elt -> elt -> elt) (a b : tensor) (i j : nat) :
  tget (tzip f a b) i j =
  match tget a i j, tget b i j with
  | Some u, Some v => Some (f u v)
  | _, _ => None
  end.
Proof.
  unfold tget, tzip; simpl. rewrite nth_error_zip_with.
  destruct (nth_error (rows a) i) as [ra |]; [| reflexivity].
  destruct (nth_error (rows b) i) as [rb |].
  - apply nth_error_zip_with.
  - now destruct (nth_error ra j).
Qed.

Lemma tget_randn_like (rng : nat -> nat -> C) (t : tensor) (i j : nat) :
  tget (randn_like rng t) i j = option_map (fun _ => Some (rng i j)) (tget t i j).
Proof.
  unfold tget, randn_like, imap; simpl. rewrite nth_error_imap_from.
  destruct (nth_error (rows t) i) as [r |]; simpl; [| reflexivity].
  now rewrite nth_error_imap_from.
Qed.

Lemma tshape_tmap (f : elt -> elt) (t : tensor) (m d : nat) :
  tshape t m d -> tshape (tmap f t) m d.
Proof.
  intros (Hc & Hr & Hf). unfold tshape, tmap; simpl. repeat split; auto.
  - now rewrite length_map.
  - rewrite Forall_map. eapply Forall_impl; [| exact Hf].
    intros r Hl; simpl. now rewrite length_map.
Qed.

Lemma Forall_zip_with_length {A B D : Type} (f : A -> B -> D) (d : nat)
    (l : list (list A)) (m : list (list B)) :
  Forall (fun r => length r = d) l -> Forall (fun r => length r = d) m ->
  Forall (fun r => length r = d) (zip_with (zip_with f) l m).
Proof.
  intros Hl. revert m. induction Hl as [| r l Hr Hl IH]; intros m Hm; simpl.
  - constructor.
  - destruct Hm as [| s m Hs Hm]; constructor.
    + rewrite length_zip_with, Hr, Hs. apply Nat.min_id.
    + now apply IH.
Qed.

Lemma tshape_tzip (f : elt -> elt -> elt) (a b : tensor) (m d : nat) :
  tshape a m d -> tshape b m d -> tshape (tzip f a b) m d.
Proof.
  intros (Hc & Hr & Hf) (Hc' & Hr' & Hf'). unfold tshape, tzip; simpl. repeat split; auto.
  - rewrite length_zip_with, Hr, Hr'. apply Nat.min_id.
  - now apply Forall_zip_with_length.
Qed.

Lemma Forall_imap_from_length {A B : Type} (g : nat -> nat -> A -> B) (d : nat)
    (l : list (list A)) (n : nat) :
  Forall (fun r => length r = d) l ->
  Forall (fun r => length r = d) (imap_from n (fun i r => imap (g i) r) l).
Proof.
  intros Hl. revert n. induction Hl as [| r l Hr Hl IH]; intros n; simpl; constructor.
  - unfold imap. now rewrite length_imap_from.
  - apply IH.
Qed.

Lemma tshape_randn_like (rng : nat -> nat -> C) (t : tensor) (m d : nat) :
  tshape t m d -> tshape (randn_like rng t) m d.
Proof.
  intros (Hc & Hr & Hf). unfold tshape, randn_like, imap; simpl. repeat split; auto.
  - now rewrite length_imap_from.
  - now apply (Forall_imap_from_length (fun i j _ => Some (rng i j))).
Qed.

Lemma tget_in_shape (t : tensor) (m d i j : nat) :
  tshape t m d -> (i < m)%nat -> (j < d)%nat -> exists e, tget t i j = Some e.
Proof.
  intros (_ & Hr & Hf) Hi Hj. unfold tget.
  destruct (nth_error (rows t) i) as [r |] eqn:E.
  - assert (Hl : length r = d).
    { rewrite Forall_forall in Hf. apply Hf. eapply nth_error_In; eauto. }
    destruct (nth_error r j) as [e |] eqn:E'; [eauto |].
    apply nth_error_None in E'. lia.
  - apply nth_error_None in E. lia.
Qed.

(** Two tensors of one shape with the same entries are the same tensor. *)
Lemma tensor_ext (a b : tensor) (m d : nat) :
  tshape a m d -> tshape b m d ->
  (forall i j, (i < m)%nat -> (j < d)%nat -> tget a i j = tget b i j) -> a = b.
Proof.
  destruct a as [ca ra], b as [cb rb].
  intros (Hc & Hr & Hf) (Hc' & Hr' & Hf') H; simpl in *. subst ca cb. f_equal.
  apply nth_error_ext. intros i.
  destruct (Nat.lt_ge_cases i m) as [Hi | Hi].
  - destruct (nth_error ra i) as [u |] eqn:Eu; [| apply nth_error_None in Eu; lia].
    destruct (nth_error rb i) as [v |] eqn:Ev; [| apply nth_error_None in Ev; lia].
    f_equal. apply nth_error_ext. intros j.
    assert (Lu : length u = d).
    { rewrite Forall_forall in Hf. apply Hf. eapply nth_error_In; eauto. }
    assert (Lv : length v = d).
    { rewrite Forall_forall in Hf'. apply Hf'. eapply nth_error_In; eauto. }
    destruct (Nat.lt_ge_cases j d) as [Hj | Hj].
    + specialize (H i j Hi Hj). unfold tget in H; simpl in H. now rewrite Eu, Ev in H.
    + transitivity (@None elt); [| symmetry]; apply nth_error_None; lia.
  - transitivity (@None (list elt)); [| symmetry]; apply nth_error_None; lia.
Qed.

(** ** The diffusion step *)

Lemma ddpm_sigma_defined (a ap : R) :
  a <> 1 -> ap <> 0 ->
  ddpm_sigma a ap = Ret (pow_half (RtoC ((1 - ap) / (1 - a) * (1 - a / ap)))).
Proof.
  intros Ha Hap. unfold ddpm_sigma, float_div.
  destruct (Req_dec_T (1 - a) 0) as [E | _]; [lra |].
  destruct (Req_dec_T ap 0) as [E | _]; [contradiction |].
  reflexivity.
Qed.

Lemma ddpm_sigma_not_defined (a ap : R) :
  a = 1 \/ ap = 0 -> ddpm_sigma a ap = Raise ZeroDivisionError.
Proof.
  intros H. unfold ddpm_sigma, float_div.
  destruct (Req_dec_T (1 - a) 0) as [E | Ne]; [reflexivity |].
  destruct (Req_dec_T ap 0) as [E | Ne']; [reflexivity |].
  destruct H; [lra | contradiction].
Qed.

(** The tensor the step returns for the scale [sigma]. *)
Lemma ddim_step_supplied (xt x0 : tensor) (a ap ns : R) (rng : nat -> nat -> C) :
  a <> 1 -> ap <> 0 ->
  ddim_step xt x0 (a, ap) (Some ns) rng =
  Ret (tadd (tadd (smul (pow_half (RtoC ap)) x0)
                  (smul (pow_half (Csub (RtoC (1 - ap))
                                        (pow2 (Cmul (pow_half (RtoC ((1 - ap) / (1 - a) * (1 - a / ap))))
                                                    (RtoC ns)))))
                        (sdiv (tsub xt (smul (pow_half (RtoC a)) x0))
                              (pow_half (RtoC (1 - a))))))
            (smul (Cmul (pow_half (RtoC ((1 - ap) / (1 - a) * (1 - a / ap)))) (RtoC ns))
                  (randn_like rng x0))).
Proof.
  intros Ha Hap. unfold ddim_step. rewrite ddpm_sigma_defined by assumption. reflexivity.
Qed.

Lemma pow_half_pos_neq_0 (r : R) : 0 < r -> pow_half (RtoC r) <> C0.
Proof.
  intros Hr. rewrite pow_half_RtoC by lra. apply RtoC_neq_0.
  pose proof (sqrt_lt_R0 r Hr). lra.
Qed.

(** One entry of the tensor of [ddim_step_supplied]. *)
Lemma step_entry (xt x0 : tensor) (c1 c2 c0 c3 sg : C) (rng : nat -> nat -> C)
    (i j : nat) (u v : C) :
  c3 <> C0 ->
  tget xt i j = Some (Some u) -> tget x0 i j = Some (Some v) ->
  tget (tadd (tadd (smul c1 x0) (smul c2 (sdiv (tsub xt (smul c0 x0)) c3)))
             (smul sg (randn_like rng x0))) i j
  = Some (Some (Cadd (Cadd (Cmul c1 v) (Cmul c2 (Cdiv (Csub u (Cmul c0 v)) c3)))
                     (Cmul sg (rng i j)))).
Proof.
  intros Hc3 Hu Hv. unfold tadd, tsub, smul, sdiv.
  rewrite !tget_tzip, !tget_tmap, !tget_tzip, !tget_tmap, tget_randn_like, Hu, Hv.
  simpl. destruct (C_eq_dec c3 C0) as [E | _]; [contradiction | reflexivity].
Qed.

Lemma step_shape (xt x0 : tensor) (c1 c2 c0 c3 sg : C) (rng : nat -> nat -> C) (m d : nat) :
  tshape xt m d -> tshape x0 m d ->
  tshape (tadd (tadd (smul c1 x0) (smul c2 (sdiv (tsub xt (smul c0 x0)) c3)))
               (smul sg (randn_like rng x0))) m d.
Proof.
  intros Hxt Hx0. unfold tadd, tsub, smul, sdiv.
  repeat (first [apply tshape_tzip | apply tshape_tmap | apply tshape_randn_like]);
    assumption.
Qed.

Lemma tfinite_tget (t : tensor) (i j : nat) (e : elt) :
  tfinite t -> tget t i j = Some e -> finite e.
Proof.
  unfold tfinite, tget. intros Hf H.
  destruct (nth_error (rows t) i) as [r |] eqn:E; [| discriminate].
  rewrite Forall_forall in Hf. specialize (Hf r (nth_error_In _ _ E)).
  rewrite Forall_forall in Hf. apply Hf. eapply nth_error_In; eauto.
Qed.

(** What the random source contributes when the scale is zero. *)
Lemma zero_scale_row (f : nat -> C) (r : list elt) (k : nat) :
  map (emul (escalar C0)) (imap_from k (fun j _ => Some (f j)) r)
  = map (fun _ => Some C0) r.
Proof.
  revert k. induction r as [| e r IH]; intros k; simpl; [reflexivity |].
  f_equal; [| apply IH].
  unfold emul, escalar, elift2. now rewrite Cmul_0_l.
Qed.

Lemma zero_scale_rows (rng : nat -> nat -> C) (l : list (list elt)) (n : nat) :
  map (map (emul (escalar C0)))
      (imap_from n (fun i r => imap (fun j _ => Some (rng i j)) r) l)
  = map (map (fun _ => Some C0)) l.
Proof.
  revert n. induction l as [| r l IH]; intros n; simpl; [reflexivity |].
  f_equal; [| apply IH]. unfold imap. apply (zero_scale_row (rng n)).
Qed.

Lemma zero_scale_noise (rng : nat -> nat -> C) (t : tensor) :
  smul C0 (randn_like rng t) = tmap (fun _ => Some C0) t.
Proof.
  unfold smul, randn_like, tmap, imap; simpl. f_equal. apply zero_scale_rows.
Qed.

(** The step over the reals, when the schedule moves towards less noise and
    the scale is at most one: every root is a real root. *)
Lemma spec_x_next_real (alpha alpha_past noise_scale xt x0 e : R) :
  0 < alpha < 1 -> 0 < alpha_past <= 1 -> alpha <= alpha_past ->
  0 <= noise_scale <= 1 ->
  spec_x_next alpha alpha_past noise_scale (RtoC xt) (RtoC x0) (RtoC e)
  = RtoC (real_x_next alpha alpha_past noise_scale xt x0 e).
Proof.
  intros Ha Hap Hle Hns.
  set (rad := (1 - alpha_past) / (1 - alpha) * (1 - alpha / alpha_past)).
  assert (Hrad0 : 0 <= rad).
  { unfold rad. apply Rmult_le_pos.
    - apply Rmult_le_pos; [lra |]. left. apply Rinv_0_lt_compat. lra.
    - assert (alpha / alpha_past <= 1); [| lra].
      apply Rmult_le_reg_r with alpha_past; [lra |]. field_simplify; lra. }
  assert (Hrad1 : rad <= 1 - alpha_past).
  { unfold rad.
    assert (H1 : (1 - alpha_past) / (1 - alpha) * (1 - alpha / alpha_past)
                 = (1 - alpha_past) * ((alpha_past - alpha) / ((1 - alpha) * alpha_past)))
      by (field; lra).
    rewrite H1.
    assert (H2 : (alpha_past - alpha) / ((1 - alpha) * alpha_past) <= 1).
    { apply Rmult_le_reg_r with ((1 - alpha) * alpha_past); [nra |].
      unfold Rdiv. rewrite Rmult_assoc, Rinv_l by nra. nra. }
    assert (H3 : 0 <= 1 - alpha_past) by lra.
    nra. }
  unfold spec_x_next, spec_sigma, spec_eps, real_x_next, real_sigma. fold rad.
  rewrite (pow_half_RtoC rad), (pow_half_RtoC alpha), (pow_half_RtoC alpha_past),
    (pow_half_RtoC (1 - alpha)) by lra.
  rewrite !RtoC_mul, RtoC_sub.
  assert (Hs : 0 <= 1 - alpha_past - noise_scale * sqrt rad * (noise_scale * sqrt rad)).
  { assert (Hsq : sqrt rad * sqrt rad = rad) by (apply sqrt_sqrt; exact Hrad0).
    assert (noise_scale * noise_scale <= 1) by nra.
    assert (noise_scale * sqrt rad * (noise_scale * sqrt rad)
            = noise_scale * noise_scale * rad) by (rewrite <- Hsq at 3; ring).
    nra. }
  rewrite pow_half_RtoC by exact Hs.
  rewrite RtoC_sub, RtoC_div.
  2:{ pose proof (sqrt_lt_R0 (1 - alpha)). lra. }
  now rewrite !RtoC_mul, !RtoC_add.
Qed.

(** C1.  Calling [ddim_step] with the noise scale unset does not fall back to
    the DDPM value of sigma and does not return a step: the product of the
    DDPM value and [None] is formed before the test [sigma is None], so the
    call raises, [TypeError] for every schedule pair on which [ddpm_sigma] is
    defined and [ZeroDivisionError] otherwise; with the scale set to one the
    same call returns. *)
Theorem ddim_step_noise_unset (xt x0 : tensor) (alpha alpha_past : R) (rng : nat -> nat -> C) :
  (exists e, ddim_step xt x0 (alpha, alpha_past) None rng = Raise e)
  /\ (alpha <> 1 -> alpha_past <> 0 ->
      ddim_step xt x0 (alpha, alpha_past) None rng = Raise TypeError
      /\ exists x_next, ddim_step xt x0 (alpha, alpha_past) (Some 1) rng = Ret x_next).
Proof.
  split.
  - unfold ddim_step.
    destruct (Req_dec_T alpha 1) as [E | Ne].
    + rewrite ddpm_sigma_not_defined by now left. simpl. eauto.
    + destruct (Req_dec_T alpha_past 0) as [E | Ne'].
      * rewrite ddpm_sigma_not_defined by now right. simpl. eauto.
      * rewrite ddpm_sigma_defined by assumption. simpl. eauto.
  - intros Ha Hap. split.
    + unfold ddim_step. rewrite ddpm_sigma_defined by assumption. reflexivity.
    + rewrite ddim_step_supplied by assumption. eauto.
Qed.

(** The call of C1 at [alpha = alpha_past = 1/2], [xt = [[1]]], [x0 = [[0]]]. *)
Lemma ddim_step_noise_unset_witness :
  ddim_step (real_tensor 1 [[1]]) (real_tensor 1 [[0]]) (1 / 2, 1 / 2) None (fun _ _ => C0)
  = Raise TypeError.
Proof.
  apply (ddim_step_noise_unset (real_tensor 1 [[1]]) (real_tensor 1 [[0]]) (1 / 2) (1 / 2)
           (fun _ _ => C0)); lra.
Defined.

(** C3.  With a noise scale supplied, [ddim_step] on an [m x d] pair returns a
    tensor of the same [m x d] shape whose entry [(i, j)] is
    [sqrt(alpha_past) x0 + sqrt(1 - alpha_past - sigma^2) eps + sigma e], with
    [eps = (xt - sqrt(alpha) x0) / sqrt(1 - alpha)],
    [sigma = noise_scale sqrt((1 - alpha_past) / (1 - alpha) (1 - alpha / alpha_past))]
    and [e] the draw of the random source for that entry.  The roots are the
    principal ones; [spec_x_next_real] reads them over the reals. *)
Theorem ddim_step_formula (xt x0 : tensor) (m d : nat) (alpha alpha_past noise_scale : R)
    (rng : nat -> nat -> C) :
  tshape xt m d -> tshape x0 m d ->
  0 < alpha < 1 -> 0 < alpha_past <= 1 -> 0 <= noise_scale ->
  exists x_next,
    ddim_step xt x0 (alpha, alpha_past) (Some noise_scale) rng = Ret x_next
    /\ tshape x_next m d
    /\ forall i j u v,
        tget xt i j = Some (Some u) -> tget x0 i j = Some (Some v) ->
        tget x_next i j
        = Some (Some (spec_x_next alpha alpha_past noise_scale u v (rng i j))).
Proof.
  intros Hxt Hx0 Ha Hap _.
  rewrite ddim_step_supplied by lra.
  eexists. split; [reflexivity |]. split.
  - now apply step_shape.
  - intros i j u v Hu Hv.
    rewrite (step_entry _ _ _ _ _ _ _ _ i j u v) by (auto; apply pow_half_pos_neq_0; lra).
    unfold spec_x_next, spec_eps, spec_sigma, pow2.
    now rewrite (Cmul_comm (RtoC noise_scale)).
Qed.

(** C3 at [alpha = 1/4], [alpha_past = 1/2], scale one, on a [1 x 1] pair. *)
Lemma ddim_step_formula_witness :
  exists x_next,
    ddim_step (real_tensor 1 [[1]]) (real_tensor 1 [[0]]) (1 / 4, 1 / 2) (Some 1)
              (fun _ _ => RtoC 1) = Ret x_next
    /\ tshape x_next 1 1
    /\ forall i j u v,
        tget (real_tensor 1 [[1]]) i j = Some (Some u) ->
        tget (real_tensor 1 [[0]]) i j = Some (Some v) ->
        tget x_next i j = Some (Some (spec_x_next (1 / 4) (1 / 2) 1 u v (RtoC 1))).
Proof.
  apply (ddim_step_formula (real_tensor 1 [[1]]) (real_tensor 1 [[0]]) 1 1 (1 / 4) (1 / 2) 1
           (fun _ _ => RtoC 1)).
  - repeat split; repeat constructor.
  - repeat split; repeat constructor.
  - lra.
  - lra.
  - lra.
Defined.

(** C5.  When the schedule makes no progress ([alpha_past = alpha]) and the
    noise scale is zero, [ddim_step] returns [xt] itself, for every pair of
    [m x d] tensors of finite numbers. *)
Theorem ddim_step_identity (xt x0 : tensor) (m d : nat) (alpha : R) (rng : nat -> nat -> C) :
  tshape xt m d -> tshape x0 m d -> tfinite xt -> tfinite x0 ->
  0 < alpha < 1 ->
  ddim_step xt x0 (alpha, alpha) (Some 0) rng = Ret xt.
Proof.
  intros Hxt Hx0 Fxt Fx0 Ha.
  rewrite ddim_step_supplied by lra. f_equal.
  apply (tensor_ext _ _ m d); [now apply step_shape | assumption |].
  intros i j Hi Hj.
  destruct (tget_in_shape xt m d i j Hxt Hi Hj) as [eu Hu].
  destruct (tget_in_shape x0 m d i j Hx0 Hi Hj) as [ev Hv].
  destruct (tfinite_tget _ _ _ _ Fxt Hu) as [u ->].
  destruct (tfinite_tget _ _ _ _ Fx0 Hv) as [v ->].
  rewrite (step_entry _ _ _ _ _ _ _ _ i j u v) by (auto; apply pow_half_pos_neq_0; lra).
  rewrite Hu. do 2 f_equal.
  rewrite Cmul_0_r. unfold pow2. rewrite !Cmul_0_l.
  replace (Csub (RtoC (1 - alpha)) C0) with (RtoC (1 - alpha)) by c_ring.
  rewrite (pow_half_RtoC alpha), (pow_half_RtoC (1 - alpha)) by lra.
  pose proof (sqrt_lt_R0 (1 - alpha)) as Hs.
  apply C_eq; unfold Cdiv, Cnorm2; simpl; field; nra.
Qed.

(** C5 at [alpha = alpha_past = 1/2], [xt = [[1]]], [x0 = [[0]]]. *)
Lemma ddim_step_identity_witness :
  ddim_step (real_tensor 1 [[1]]) (real_tensor 1 [[0]]) (1 / 2, 1 / 2) (Some 0)
            (fun _ _ => RtoC 1) = Ret (real_tensor 1 [[1]]).
Proof.
  apply (ddim_step_identity (real_tensor 1 [[1]]) (real_tensor 1 [[0]]) 1 1 (1 / 2)
           (fun _ _ => RtoC 1)).
  - repeat split; repeat constructor.
  - repeat split; repeat constructor.
  - repeat constructor. now exists (RtoC 1).
  - repeat constructor. now exists (RtoC 0).
  - lra.
Defined.

(** C6.  With a zero noise scale two calls of [ddim_step] on the same
    [(xt, x0, alpha, alpha_past)] return the same tensor, whatever the random
    source draws in each. *)
Theorem ddim_step_zero_noise_deterministic (xt x0 : tensor) (m d : nat)
    (alpha alpha_past : R) (rng1 rng2 : nat -> nat -> C) :
  tshape xt m d -> tshape x0 m d ->
  0 < alpha < 1 -> 0 < alpha_past <= 1 ->
  exists x_next,
    ddim_step xt x0 (alpha, alpha_past) (Some 0) rng1 = Ret x_next
    /\ ddim_step xt x0 (alpha, alpha_past) (Some 0) rng2 = Ret x_next.
Proof.
  intros _ _ Ha Hap.
  rewrite !ddim_step_supplied by lra.
  rewrite !Cmul_0_r, !zero_scale_noise. eauto.
Qed.

(** C6 at [alpha = 1/4], [alpha_past = 1/2] with two different draws. *)
Lemma ddim_step_zero_noise_deterministic_witness :
  exists x_next,
    ddim_step (real_tensor 1 [[1]]) (real_tensor 1 [[0]]) (1 / 4, 1 / 2) (Some 0)
              (fun _ _ => RtoC 1) = Ret x_next
    /\ ddim_step (real_tensor 1 [[1]]) (real_tensor 1 [[0]]) (1 / 4, 1 / 2) (Some 0)
                 (fun _ _ => RtoC 2) = Ret x_next.
Proof.
  apply (ddim_step_zero_noise_deterministic
           (real_tensor 1 [[1]]) (real_tensor 1 [[0]]) 1 1 (1 / 4) (1 / 2)
           (fun _ _ => RtoC 1) (fun _ _ => RtoC 2)).
  - repeat split; repeat constructor.
  - repeat split; repeat constructor.
  - lra.
  - lra.
Defined.

(** ** The estimator on tensors of reals *)

Lemma map_real (f : elt -> elt) (g : R -> R) (l : list R) :
  (forall a, f (Some (RtoC a)) = Some (RtoC (g a))) ->
  map f (real_vector l) = real_vector (map g l).
Proof.
  intros H. unfold real_vector. rewrite !map_map. apply map_ext. intros a. apply H.
Qed.

Lemma zip_with_real (f : elt -> elt -> elt) (g : R -> R -> R) (l m : list R) :
  (forall a b, f (Some (RtoC a)) (Some (RtoC b)) = Some (RtoC (g a b))) ->
  zip_with f (real_vector l) (real_vector m) = real_vector (zip_with g l m).
Proof.
  intros H. revert m. induction l as [| a l IH]; intros [| b m]; simpl; try reflexivity.
  now rewrite H, IH.
Qed.

Lemma esum_real (l : list R) : esum (real_vector l) = Some (RtoC (rsum l)).
Proof.
  induction l as [| a l IH]; [reflexivity |].
  change (esum (real_vector (a :: l))) with (eadd (Some (RtoC a)) (esum (real_vector l))).
  rewrite IH. simpl. now rewrite RtoC_add.
Qed.

Lemma zip_with_map_r {A B B' D : Type} (f : A -> B -> D) (g : B' -> B) (l : list A)
    (m : list B') :
  zip_with f l (map g m) = zip_with (fun a b => f a (g b)) l m.
Proof.
  revert m. induction l as [| a l IH]; intros [| b m]; simpl; try reflexivity.
  now rewrite IH.
Qed.

Lemma map_zip_with {A B D E : Type} (g : D -> E) (f : A -> B -> D) (l : list A) (m : list B) :
  map g (zip_with f l m) = zip_with (fun a b => g (f a b)) l m.
Proof.
  revert m. induction l as [| a l IH]; intros [| b m]; simpl; try reflexivity.
  now rewrite IH.
Qed.

Lemma zip_with_ext_in {A B D : Type} (f g : A -> B -> D) (l : list A) (m : list B) :
  (forall a b, In a l -> In b m -> f a b = g a b) -> zip_with f l m = zip_with g l m.
Proof.
  revert m. induction l as [| a l IH]; intros [| b m] H; simpl; try reflexivity.
  f_equal.
  - apply H; now left.
  - apply IH. intros a' b' Ha Hb. apply H; now right.
Qed.

Lemma rsum_squares_nonneg (l : list R) : 0 <= rsum (map (fun t => t * t) l).
Proof. induction l as [| a l IH]; simpl; nra. Qed.

Lemma Rabs_mul_self (t : R) : Rabs t * Rabs t = t * t.
Proof. unfold Rabs. destruct (Rcase_abs t); ring. Qed.

(** The squared distances that [norm] gives for one query row. *)
Lemma norm_squared_real (q : list R) (mu : list (list R)) (d : nat) :
  length q = d -> Forall (fun r => length r = d) mu ->
  map epow2 (BayesianEstimator.norm (BayesianEstimator.row_sub (real_vector q) (real_tensor d mu)))
  = real_vector (map (sq_dist q) mu).
Proof.
  intros Hq Hmu.
  unfold BayesianEstimator.norm, BayesianEstimator.row_sub, real_tensor; simpl.
  assert (Hsub : forall mi,
             zip_with esub (real_vector q) (real_vector mi) = real_vector (zip_with Rminus q mi)).
  { intros mi. apply zip_with_real. intros a b. simpl. now rewrite RtoC_sub. }
  change (real_vector (map (sq_dist q) mu))
    with (map (fun r => Some (RtoC r)) (map (sq_dist q) mu)).
  destruct (Nat.eqb d 1) eqn:Ed.
  - apply Nat.eqb_eq in Ed. subst d.
    rewrite !map_map.
    apply map_ext_in. intros mi Hin.
    rewrite Forall_forall in Hmu. specialize (Hmu mi Hin).
    destruct q as [| a [| ? ?]]; try discriminate.
    destruct mi as [| b [| ? ?]]; try discriminate.
    simpl. rewrite RtoC_sub, Cmod_RtoC, pow2_RtoC, Rabs_mul_self.
    unfold sq_dist; simpl. do 2 f_equal. ring.
  - rewrite !map_map.
    apply map_ext. intros mi. rewrite Hsub.
    rewrite (map_real _ (fun t => t * t)).
    2:{ intros a. simpl. now rewrite Cnorm2_RtoC. }
    rewrite esum_real. simpl.
    rewrite pow_half_RtoC by apply rsum_squares_nonneg.
    rewrite pow2_RtoC, sqrt_sqrt by apply rsum_squares_nonneg.
    unfold sq_dist. now rewrite map_zip_with.
Qed.

(** The diffusion likelihoods of one query row under the stored samples. *)
Lemma gaussian_prob_real (q : list R) (mu : list (list R)) (d : nat) (v : R) :
  length q = d -> Forall (fun r => length r = d) mu -> 0 < v ->
  BayesianEstimator.gaussian_prob (real_vector q) (real_tensor d mu) (pow_half (RtoC v))
  = real_vector (map (fun mi => exp (- sq_dist q mi / (2 * v))) mu).
Proof.
  intros Hq Hmu Hv. unfold BayesianEstimator.gaussian_prob.
  rewrite <- (map_map epow2 (fun e => eexp (ediv (eneg e) _))).
  rewrite (norm_squared_real q mu d Hq Hmu).
  rewrite pow_half_RtoC, pow2_RtoC, sqrt_sqrt, RtoC_mul by lra.
  rewrite (map_real _ (fun s => exp (- s / (2 * v)))).
  - now rewrite map_map.
  - intros s. unfold eneg, eexp, elift1, escalar. cbn [option_map].
    rewrite RtoC_neg, ediv_real by lra. cbn [option_map]. now rewrite Cexp_RtoC.
Qed.

Lemma tmap_real (f : elt -> elt) (g : R -> R) (d : nat) (m : list (list R)) :
  (forall a, f (Some (RtoC a)) = Some (RtoC (g a))) ->
  tmap f (real_tensor d m) = real_tensor d (map (map g) m).
Proof.
  intros H. unfold tmap, real_tensor; simpl. f_equal. rewrite !map_map.
  apply map_ext. intros r. now apply map_real.
Qed.

Lemma scaled_rows_real (ws : list R) (x : list (list R)) :
  zip_with (fun p r => map (emul p) r) (real_vector ws) (map real_vector x)
  = map real_vector (zip_with (fun w xi => map (Rmult w) xi) ws x).
Proof.
  revert x. induction ws as [| w ws IH]; intros [| xi x]; simpl; try reflexivity.
  f_equal; [| apply IH].
  apply map_real. intros a. simpl. now rewrite RtoC_mul.
Qed.

Lemma sum_dim0_real (d : nat) (m : list (list R)) :
  sum_dim0 d (map real_vector m) = real_vector (col_sums d m).
Proof.
  unfold sum_dim0, col_sums. induction m as [| r m IH]; simpl.
  - unfold real_vector. now rewrite map_repeat.
  - rewrite IH. apply zip_with_real. intros a b. simpl. now rewrite RtoC_add.
Qed.

Lemma length_col_sums (d : nat) (m : list (list R)) :
  Forall (fun r => length r = d) m -> length (col_sums d m) = d.
Proof.
  unfold col_sums. induction 1 as [| r m Hr Hm IH]; simpl.
  - apply repeat_length.
  - rewrite length_zip_with, Hr, IH. apply Nat.min_id.
Qed.

Lemma nth_zip_with_plus (l m : list R) (k : nat) :
  length l = length m -> nth k (zip_with Rplus l m) 0 = nth k l 0 + nth k m 0.
Proof.
  revert m k. induction l as [| a l IH]; intros [| b m] k Hl; simpl in *; try discriminate.
  - destruct k; ring.
  - destruct k; [reflexivity |]. apply IH. lia.
Qed.

Lemma nth_col_sums (d : nat) (m : list (list R)) (k : nat) :
  Forall (fun r => length r = d) m ->
  nth k (col_sums d m) 0 = rsum (map (fun r => nth k r 0) m).
Proof.
  intros Hm. induction Hm as [| r m Hr Hm IH]; simpl.
  - unfold col_sums; simpl. destruct (Nat.lt_ge_cases k d) as [Hk | Hk].
    + now apply nth_repeat_lt.
    + apply nth_overflow. now rewrite repeat_length.
  - change (col_sums d (r :: m)) with (zip_with Rplus r (col_sums d m)).
    rewrite nth_zip_with_plus by (rewrite length_col_sums; auto).
    now rewrite IH.
Qed.

Lemma Forall_length_zip_with_map (d : nat) (ws : list R) (x : list (list R)) :
  Forall (fun r => length r = d) x ->
  Forall (fun r => length r = d) (zip_with (fun w xi => map (Rmult w) xi) ws x).
Proof.
  intros Hx. revert ws. induction Hx as [| r x Hr Hx IH]; intros [| w ws]; simpl;
    constructor.
  - now rewrite length_map.
  - apply IH.
Qed.

(** [_estimate] for a query row of reals against a population of reals: the
    quotients of the column sums of the weighted samples by the sum of the
    weights plus [1e-9]. *)
Lemma estimate_row_real (d : nat) (x : list (list R)) (f : list R) (a : R) (dm : string)
    (h : R) (q : list R) (dj : R) :
  Forall (fun r => length r = d) x -> length q = d -> 0 < a < 1 -> dj + eps9 <> 0 ->
  BayesianEstimator._estimate
    (BayesianEstimator.Build (real_tensor d x) (real_vector f) a dm h)
    (real_vector q) (Some (RtoC dj))
  = map (fun c => ediv (Some (RtoC c))
                       (Some (RtoC (rsum (zip_with (spec_weight a dj q) f x) + eps9))))
        (col_sums d (zip_with (fun w xi => map (Rmult w) xi)
                              (zip_with (spec_weight a dj q) f x) x)).
Proof.
  intros Hx Hq Ha Hdj. unfold BayesianEstimator._estimate; simpl.
  rewrite (tmap_real _ (fun v => v * sqrt a)).
  2:{ intros v. unfold escalar. rewrite pow_half_RtoC by lra. simpl. now rewrite RtoC_mul. }
  rewrite (gaussian_prob_real q _ d (1 - a)); try lra; try assumption.
  2:{ rewrite Forall_map. eapply Forall_impl; [| exact Hx].
      intros r Hr; simpl. now rewrite length_map. }
  rewrite map_map.
  rewrite (zip_with_real _ (fun fi p => (fi + eps9) * (p + eps9) / (dj + eps9))).
  2:{ intros u v. unfold escalar, eadd, emul, elift2.
      rewrite !RtoC_add, RtoC_mul. now apply ediv_real. }
  rewrite zip_with_map_r.
  assert (Hw : zip_with
                 (fun (fi : R) (xi : list R) =>
                    (fi + eps9)
                    * (exp (- sq_dist q (map (fun v => v * sqrt a) xi) / (2 * (1 - a))) + eps9)
                    / (dj + eps9)) f x
               = zip_with (spec_weight a dj q) f x).
  { apply zip_with_ext_in. intros fi xi _ _. unfold spec_weight.
    replace (map (fun v => v * sqrt a) xi) with (map (Rmult (sqrt a)) xi); [reflexivity |].
    apply map_ext. intros v. ring. }
  rewrite Hw. clear Hw.
  rewrite esum_real, scaled_rows_real, sum_dim0_real.
  unfold escalar, eadd, elift2. rewrite RtoC_add.
  unfold real_vector. now rewrite map_map.
Qed.

Lemma uniform_weights (m : nat) :
  map (fun e => ediv e (escalar (RtoC (INR m)))) (repeat (escalar (RtoC 1)) m)
  = repeat (Some (RtoC (1 / INR m))) m.
Proof.
  destruct m as [| m]; [reflexivity |].
  rewrite map_repeat. f_equal. unfold escalar. apply ediv_real.
  apply not_0_INR. lia.
Qed.

Lemma uniform_weight_nonneg (m : nat) : 0 <= 1 / INR m.
Proof.
  destruct m as [| m].
  - simpl. unfold Rdiv. rewrite Rinv_0. lra.
  - left. apply Rdiv_lt_0_compat; [lra |]. apply lt_0_INR. lia.
Qed.

(** With the uniform density [estimate] maps [_estimate] over the query rows,
    each with the weight [1 / M], and leaves the estimator as it was. *)
Lemma estimate_uniform (self : BayesianEstimator.t) (x_t : tensor) :
  BayesianEstimator.density_method self = "uniform"%string ->
  BayesianEstimator.estimate x_t self
  = (Ret (Tensor (ncols (BayesianEstimator.x self))
                 (map (fun r => BayesianEstimator._estimate self r
                                  (Some (RtoC (1 / INR (nrows x_t)))))
                      (rows x_t))),
     self).
Proof.
  intros Hd. unfold BayesianEstimator.estimate, BayesianEstimator.density, mbind, get, mret.
  rewrite Hd. simpl. rewrite uniform_weights. unfold nrows.
  now rewrite zip_with_repeat.
Qed.

Lemma rsum_nth_scaled (ws : list R) (x : list (list R)) (k : nat) :
  rsum (map (fun r => nth k r 0) (zip_with (fun w xi => map (Rmult w) xi) ws x))
  = rsum (zip_with (fun w xi => w * nth k xi 0) ws x).
Proof.
  rewrite map_zip_with. f_equal. apply zip_with_ext_in. intros w xi _ _.
  replace 0 with (w * 0) at 1 by ring. apply map_nth.
Qed.

(** [estimate] for a batch of real query points against a population of
    reals: the shape of the result and each of its entries. *)
Lemma estimate_real (n d m : nat) (x : list (list R)) (f : list R) (a h : R)
    (x_t : list (list R)) :
  mshape x n d -> length f = n -> 0 < a < 1 -> mshape x_t m d ->
  let self := BayesianEstimator.Build (real_tensor d x) (real_vector f) a "uniform" h in
  exists out,
    BayesianEstimator.estimate (real_tensor d x_t) self = (Ret out, self)
    /\ tshape out m d
    /\ forall j k q,
        nth_error x_t j = Some q -> (k < d)%nat ->
        tget out j k
        = Some (ediv (Some (RtoC (spec_num a m x f q k))) (Some (RtoC (spec_den a m x f q)))).
Proof.
  intros (Hn & Hx) Hf Ha (Hm & Hxt) self.
  rewrite estimate_uniform by reflexivity.
  eexists. split; [reflexivity |].
  assert (Hnr : nrows (real_tensor d x_t) = m).
  { unfold nrows, real_tensor; simpl. now rewrite length_map. }
  rewrite Hnr. clear Hnr.
  assert (Hrow : forall q, In q x_t ->
            BayesianEstimator._estimate self (real_vector q) (Some (RtoC (1 / INR m)))
            = map (fun c => ediv (Some (RtoC c)) (Some (RtoC (spec_den a m x f q))))
                  (col_sums d (zip_with (fun w xi => map (Rmult w) xi)
                                        (spec_weights a m x f q) x))).
  { intros q Hq. unfold self. apply estimate_row_real; auto.
    - rewrite Forall_forall in Hxt. now apply Hxt.
    - pose proof (uniform_weight_nonneg m). pose proof eps9_pos. lra. }
  split.
  - unfold tshape; simpl. split; [reflexivity |]. split.
    + now rewrite !length_map.
    + rewrite map_map, Forall_map, Forall_forall. intros q Hq.
      rewrite (Hrow q Hq), length_map.
      apply length_col_sums. now apply Forall_length_zip_with_map.
  - intros j k q Hj Hk. unfold tget; simpl.
    rewrite map_map, nth_error_map, Hj. simpl.
    rewrite (Hrow q (nth_error_In _ _ Hj)), nth_error_map.
    assert (Hlen : length (col_sums d (zip_with (fun w xi => map (Rmult w) xi)
                                                (spec_weights a m x f q) x)) = d).
    { apply length_col_sums. now apply Forall_length_zip_with_map. }
    rewrite (nth_error_nth' _ 0) by lia. simpl.
    rewrite nth_col_sums by now apply Forall_length_zip_with_map.
    now rewrite rsum_nth_scaled.
Qed.

Lemma spec_weight_pos (a dj : R) (q : list R) (fi : R) (xi : list R) :
  0 <= dj -> 0 <= fi -> 0 < spec_weight a dj q fi xi.
Proof.
  intros Hdj Hfi. unfold spec_weight.
  pose proof eps9_pos as He.
  pose proof (exp_pos (- sq_dist q (map (Rmult (sqrt a)) xi) / (2 * (1 - a)))) as Hexp.
  apply Rdiv_lt_0_compat; [| lra].
  apply Rmult_lt_0_compat; lra.
Qed.

Lemma spec_den_pos (a : R) (m : nat) (x : list (list R)) (f : list R) (q : list R) :
  Forall (fun v => 0 <= v) f -> 0 < spec_den a m x f q.
Proof.
  intros Hf. unfold spec_den, spec_weights.
  assert (H : 0 <= rsum (zip_with (spec_weight a (1 / INR m) q) f x)).
  { revert x. induction Hf as [| fi f Hfi Hf IH]; intros [| xi x]; simpl; try lra.
    pose proof (spec_weight_pos a (1 / INR m) q fi xi (uniform_weight_nonneg m) Hfi).
    specialize (IH x). lra. }
  pose proof eps9_pos. lra.
Qed.



(** C2.  With the uniform density, for a population [x] of [n x d] reals with
    [n] fitness values and [alpha] in (0, 1), [estimate] on an [m x d] batch
    returns a tensor whose row [j] has, in each coordinate [k], the quotient
    of [sum_i w_i x[i][k]] by [sum_i w_i + 1e-9], where
    [w_i = (fitness[i] + 1e-9) (exp(- |x_t[j] - sqrt(alpha) x[i]|^2 / (2 (1 - alpha))) + 1e-9) / (1 / m + 1e-9)]:
    the quotient of tensor division, which is the real quotient whenever the
    denominator is not zero. *)
Theorem estimate_formula (n d m : nat) (x : list (list R)) (fitness : list R) (alpha h : R)
    (x_t : list (list R)) :
  mshape x n d -> length fitness = n -> 0 < alpha < 1 -> mshape x_t m d ->
  let self :=
    BayesianEstimator.Build (real_tensor d x) (real_vector fitness) alpha "uniform" h in
  exists x0_est,
    fst (BayesianEstimator.estimate (real_tensor d x_t) self) = Ret x0_est
    /\ forall j k x_t_j,
        nth_error x_t j = Some x_t_j -> (k < d)%nat ->
        tget x0_est j k
        = Some (ediv (Some (RtoC (spec_num alpha m x fitness x_t_j k)))
                     (Some (RtoC (spec_den alpha m x fitness x_t_j))))
        /\ (spec_den alpha m x fitness x_t_j <> 0 ->
            tget x0_est j k
            = Some (Some (RtoC (spec_num alpha m x fitness x_t_j k
                                / spec_den alpha m x fitness x_t_j)))).
Proof.
  intros Hx Hf Ha Hxt self.
  destruct (estimate_real n d m x fitness alpha h x_t Hx Hf Ha Hxt) as (out & He & _ & Hent).
  exists out. fold self in He. rewrite He. split; [reflexivity |].
  intros j k q Hj Hk. rewrite (Hent j k q Hj Hk). split; [reflexivity |].
  intros Hden. now rewrite ediv_real.
Qed.

(** C2 for the population [[0], [1]] of fitness [1, 0] at [alpha = 1/2] and
    the one query point [[0]]. *)
Lemma estimate_formula_witness :
  let self :=
    BayesianEstimator.Build (real_tensor 1 [[0]; [1]]) (real_vector [1; 0]) (1 / 2)
                            "uniform" (1 / 10) in
  exists x0_est,
    fst (BayesianEstimator.estimate (real_tensor 1 [[0]]) self) = Ret x0_est
    /\ forall j k x_t_j,
        nth_error [[0]] j = Some x_t_j -> (k < 1)%nat ->
        tget x0_est j k
        = Some (ediv (Some (RtoC (spec_num (1 / 2) 1 [[0]; [1]] [1; 0] x_t_j k)))
                     (Some (RtoC (spec_den (1 / 2) 1 [[0]; [1]] [1; 0] x_t_j))))
        /\ (spec_den (1 / 2) 1 [[0]; [1]] [1; 0] x_t_j <> 0 ->
            tget x0_est j k
            = Some (Some (RtoC (spec_num (1 / 2) 1 [[0]; [1]] [1; 0] x_t_j k
                                / spec_den (1 / 2) 1 [[0]; [1]] [1; 0] x_t_j)))).
Proof.
  apply (estimate_formula 2 1 1 [[0]; [1]] [1; 0] (1 / 2) (1 / 10) [[0]]).
  - split; [reflexivity | repeat constructor].
  - reflexivity.
  - lra.
  - split; [reflexivity | repeat constructor].
Defined.

Lemma _estimate_from_likelihoods (self : BayesianEstimator.t) (x_t : list elt) (p_x_t : elt) :
  BayesianEstimator._estimate self x_t p_x_t
  = estimate_from_likelihoods self
      (BayesianEstimator.gaussian_prob x_t
         (tmap (fun e => emul e (escalar (pow_half (RtoC (BayesianEstimator.alpha self)))))
               (BayesianEstimator.x self))
         (pow_half (RtoC (1 - BayesianEstimator.alpha self))))
      p_x_t.
Proof. reflexivity. Qed.






(** ** Queries, construction and state *)

Lemma permute_map {A B : Type} (g : list A -> list B) (l : list (list A)) (p : list nat) :
  (forall i, In i p -> (i < length l)%nat) ->
  map g (map (fun i => nth i l []) p) = map (fun i => nth i (map g l) []) p.
Proof.
  intros Hp. rewrite map_map. apply map_ext_in. intros i Hi.
  rewrite (nth_indep (map g l) [] (g [])) by (rewrite length_map; auto).
  symmetry. apply map_nth.
Qed.

(** C7.  With the uniform density, for an estimator over [n x d] samples and an
    [m x d] batch, [estimate] on the rows of the batch taken in the order of a
    permutation returns the rows of [estimate] on the batch taken in that
    order: row [j] of the result is [_estimate] of row [j] and of the weight
    [1 / m], and of nothing else in the batch. *)
Theorem estimate_permutation (self : BayesianEstimator.t) (n d m : nat) (x_t : tensor)
    (p : list nat) :
  tshape (BayesianEstimator.x self) n d -> length (BayesianEstimator.fitness self) = n ->
  BayesianEstimator.density_method self = "uniform"%string ->
  tshape x_t m d -> Permutation p (seq 0 m) ->
  exists x0_est,
    fst (BayesianEstimator.estimate x_t self) = Ret x0_est
    /\ fst (BayesianEstimator.estimate (permute_rows p x_t) self)
       = Ret (permute_rows p x0_est)
    /\ forall j r,
        nth_error (rows x_t) j = Some r ->
        nth_error (rows x0_est) j
        = Some (BayesianEstimator._estimate self r (Some (RtoC (1 / INR m)))).
Proof.
  intros _ _ Hd (_ & Hm & _) Hp. rewrite !estimate_uniform by assumption.
  assert (Hn : nrows x_t = m) by exact Hm.
  assert (Hn' : nrows (permute_rows p x_t) = m).
  { unfold nrows, permute_rows; simpl.
    rewrite length_map, (Permutation_length Hp). apply length_seq. }
  rewrite Hn, Hn'.
  eexists. split; [reflexivity |]. split.
  - simpl. unfold permute_rows; simpl. do 2 f_equal.
    apply permute_map. intros i Hi.
    apply (Permutation_in _ Hp), in_seq in Hi. lia.
  - intros j r Hj. simpl. now rewrite nth_error_map, Hj.
Qed.

(** C7 for a batch of two rows and the permutation that swaps them. *)
Lemma estimate_permutation_witness :
  let self :=
    BayesianEstimator.Build (real_tensor 1 [[0]; [1]]) (real_vector [1; 0]) (1 / 2)
                            "uniform" (1 / 10) in
  let x_t := real_tensor 1 [[0]; [1]] in
  exists x0_est,
    fst (BayesianEstimator.estimate x_t self) = Ret x0_est
    /\ fst (BayesianEstimator.estimate (permute_rows [1; 0]%nat x_t) self)
       = Ret (permute_rows [1; 0]%nat x0_est)
    /\ forall j r,
        nth_error (rows x_t) j = Some r ->
        nth_error (rows x0_est) j
        = Some (BayesianEstimator._estimate self r (Some (RtoC (1 / INR 2)))).
Proof.
  apply (estimate_permutation
           (BayesianEstimator.Build (real_tensor 1 [[0]; [1]]) (real_vector [1; 0]) (1 / 2)
                                    "uniform" (1 / 10))
           2 1 2 (real_tensor 1 [[0]; [1]]) [1; 0]%nat).
  - repeat split; repeat constructor.
  - reflexivity.
  - reflexivity.
  - repeat split; repeat constructor.
  - apply perm_swap.
Defined.

(** C8.  Constructing a [BayesianEstimator] succeeds when the density method is
    ['uniform'], with the fields as given, and raises [NotImplementedError]
    from the constructor for every other method. *)
Theorem init_density_check (x : tensor) (fitness : list elt) (alpha : R) (density : string)
    (h : R) :
  (density = "uniform"%string
   /\ BayesianEstimator.init x fitness alpha density h
      = Ret (BayesianEstimator.Build x fitness alpha density h))
  \/ (density <> "uniform"%string
      /\ BayesianEstimator.init x fitness alpha density h = Raise NotImplementedError).
Proof.
  unfold BayesianEstimator.init; simpl.
  destruct (String.eqb_spec density "uniform") as [E | Ne]; simpl.
  - left. now split.
  - right. now split.
Qed.

(** C9.  [append] replaces [x] by the rows of [self.x] followed by those of
    [other.x] and [fitness] by [self.fitness] followed by [other.fitness], and
    changes no other field; an estimator whose [x] and [fitness] have equal
    lengths keeps them equal.  [density], [estimate] and [__call__] leave the
    estimator as it was, for every input. *)
Theorem estimator_state_frame (self other : BayesianEstimator.t) (x_t : tensor) :
  nrows (BayesianEstimator.x self) = length (BayesianEstimator.fitness self) ->
  nrows (BayesianEstimator.x other) = length (BayesianEstimator.fitness other) ->
  (ncols (BayesianEstimator.x self) = ncols (BayesianEstimator.x other) ->
   BayesianEstimator.append other self
   = (Ret tt,
      BayesianEstimator.Build
        (Tensor (ncols (BayesianEstimator.x self))
                (rows (BayesianEstimator.x self) ++ rows (BayesianEstimator.x other)))
        (BayesianEstimator.fitness self ++ BayesianEstimator.fitness other)
        (BayesianEstimator.alpha self)
        (BayesianEstimator.density_method self)
        (BayesianEstimator.h self)))
  /\ nrows (BayesianEstimator.x (snd (BayesianEstimator.append other self)))
     = length (BayesianEstimator.fitness (snd (BayesianEstimator.append other self)))
  /\ snd (BayesianEstimator.density x_t self) = self
  /\ snd (BayesianEstimator.estimate x_t self) = self
  /\ snd (BayesianEstimator.call x_t self) = self.
Proof.
  intros Hs Ho.
  assert (Hest : snd (BayesianEstimator.estimate x_t self) = self).
  { unfold BayesianEstimator.estimate, BayesianEstimator.density, mbind, get, mret, mraise.
    simpl. now destruct (String.eqb (BayesianEstimator.density_method self) "uniform"). }
  split; [| split; [| split; [| split]]].
  - intros Hc. unfold BayesianEstimator.append, mbind, get, put, lift, cat; simpl.
    apply Nat.eqb_eq in Hc. now rewrite Hc.
  - unfold BayesianEstimator.append, mbind, get, put, lift, cat; simpl.
    destruct (Nat.eqb (ncols (BayesianEstimator.x self)) (ncols (BayesianEstimator.x other)));
      simpl; [| exact Hs].
    unfold nrows in *; simpl. rewrite !length_app. lia.
  - unfold BayesianEstimator.density, mbind, get, mret; simpl.
    now destruct (String.eqb (BayesianEstimator.density_method self) "uniform").
  - exact Hest.
  - exact Hest.
Qed.

(** C9 for two estimators of one sample each. *)
Lemma estimator_state_frame_witness :
  let self :=
    BayesianEstimator.Build (real_tensor 1 [[0]]) (real_vector [1]) (1 / 2) "uniform" (1 / 10) in
  let other :=
    BayesianEstimator.Build (real_tensor 1 [[1]]) (real_vector [0]) (1 / 2) "uniform" (1 / 10) in
  BayesianEstimator.append other self
  = (Ret tt,
     BayesianEstimator.Build (real_tensor 1 [[0]; [1]]) (real_vector [1; 0]) (1 / 2)
                             "uniform" (1 / 10))
  /\ snd (BayesianEstimator.estimate (real_tensor 1 [[0]]) self) = self.
Proof.
  pose proof (estimator_state_frame
                (BayesianEstimator.Build (real_tensor 1 [[0]]) (real_vector [1]) (1 / 2)
                                         "uniform" (1 / 10))
                (BayesianEstimator.Build (real_tensor 1 [[1]]) (real_vector [0]) (1 / 2)
                                         "uniform" (1 / 10))
                (real_tensor 1 [[0]]) eq_refl eq_refl) as (Happ & _ & _ & Hest & _).
  split; [exact (Happ eq_refl) | exact Hest].
Defined.

(** The value of [generate]: the estimate of the owned estimator, one
    diffusion step from it, and the normalisation of the step. *)
Lemma generate_value (normalize : tensor -> outcome tensor) (x : tensor) (noise : option R)
    (elite_rate : R) (return_x0 : bool) (rng : nat -> nat -> C) (g : BayesianGenerator.t) :
  fst (BayesianGenerator.generate normalize x noise elite_rate return_x0 rng g)
  = (x0_est <- fst (BayesianEstimator.call x (BayesianGenerator.estimator g)) ;;
     x_next <- ddim_step x x0_est
                 (BayesianGenerator.alpha g, BayesianGenerator.alpha_past g) noise rng ;;
     x_next <- normalize x_next ;;
     Ret (if return_x0 then BayesianGenerator.NextAndOrigin x_next x0_est
          else BayesianGenerator.Next x_next))%py.
Proof.
  unfold BayesianGenerator.generate, BayesianGenerator.on_estimator, mbind, get, lift, mret.
  destruct (BayesianEstimator.call x (BayesianGenerator.estimator g)) as [[x0_est | e] s];
    cbn -[ddim_step]; [| reflexivity].
  destruct (ddim_step x x0_est
              (BayesianGenerator.alpha g, BayesianGenerator.alpha_past g) noise rng)
    as [x_next | e]; cbn -[ddim_step]; [| reflexivity].
  destruct (normalize x_next) as [x_next' | e]; cbn; [| reflexivity].
  now destruct return_x0.
Qed.

(** C10.  What [generate] returns does not depend on [elite_rate], and does
    not depend on the [elite_strategy] flag the generator was constructed
    with: for the same samples, schedule, density, bandwidth, query, noise
    scale, [return_x0] and random draw, two elite rates and two flags give the
    same result, or the same exception. *)
Theorem generate_ignores_elite (normalize : tensor -> outcome tensor)
    (x0 : tensor) (fitness : list elt) (alphas : R * R) (density : string) (h : R)
    (x : tensor) (noise : option R) (return_x0 : bool) (rng : nat -> nat -> C)
    (elite_rate1 elite_rate2 : R) (elite_strategy1 elite_strategy2 : bool) :
  bind (BayesianGenerator.init x0 fitness alphas density h elite_strategy1)
       (fun g => fst (BayesianGenerator.generate normalize x noise elite_rate1 return_x0 rng g))
  = bind (BayesianGenerator.init x0 fitness alphas density h elite_strategy2)
         (fun g => fst (BayesianGenerator.generate normalize x noise elite_rate2 return_x0 rng g)).
Proof.
  destruct alphas as [a ap]. unfold BayesianGenerator.init.
  destruct (BayesianEstimator.init x0 fitness a density h) as [e | err]; simpl;
    [| reflexivity].
  now rewrite !generate_value.
Qed.

(** ** Further properties of the diffusion step *)

Lemma pow_half_neq_0 (z : C) : z <> C0 -> pow_half z <> C0.
Proof.
  intros Hz E. apply Hz. rewrite <- (pow_half_sqr z), E. unfold pow2. apply Cmul_0_l.
Qed.

Lemma radicand_bounds (a ap : R) :
  0 < a < 1 -> a <= ap <= 1 ->
  0 <= (1 - ap) / (1 - a) * (1 - a / ap) <= 1 - ap.
Proof.
  intros Ha Hap.
  assert (H1 : (1 - ap) / (1 - a) * (1 - a / ap)
               = (1 - ap) * ((ap - a) / ((1 - a) * ap))) by (field; lra).
  rewrite H1.
  assert (Hd : 0 < (1 - a) * ap) by nra.
  assert (H2 : 0 <= (ap - a) / ((1 - a) * ap) <= 1).
  { split.
    - apply Rmult_le_pos; [lra |]. left. now apply Rinv_0_lt_compat.
    - apply Rmult_le_reg_r with ((1 - a) * ap); [exact Hd |].
      unfold Rdiv. rewrite Rmult_assoc, Rinv_l by lra. nra. }
  nra.
Qed.

(** X1.  [ddim_step] raises [ZeroDivisionError] exactly when [alpha_t = 1] or
    [alpha_{t-1} = 0]: the exception comes from the two float divisions of
    [ddpm_sigma], which run before any tensor is touched, so this holds for
    every pair of tensors, every noise scale (a number or [None]) and every
    draw.  When [alpha_t] is not one, the divisor [(1 - alpha_t) ** 0.5] of
    [eps] is not zero.  Nothing is said here of other exceptions. *)
Theorem ddim_step_zero_division (xt x0 : tensor) (alpha alpha_past : R) (noise : option R)
    (rng : nat -> nat -> C) :
  (ddim_step xt x0 (alpha, alpha_past) noise rng = Raise ZeroDivisionError
   <-> alpha = 1 \/ alpha_past = 0)
  /\ (alpha <> 1 -> pow_half (RtoC (1 - alpha)) <> C0).
Proof.
  split.
  - split.
    + intros Hraise.
      destruct (Req_dec_T alpha 1) as [Ha | Ha]; [now left |].
      destruct (Req_dec_T alpha_past 0) as [Hap | Hap]; [now right |].
      exfalso. destruct noise as [ns |].
      * rewrite ddim_step_supplied in Hraise by assumption. discriminate.
      * unfold ddim_step in Hraise. rewrite ddpm_sigma_defined in Hraise by assumption.
        discriminate.
    + intros H. unfold ddim_step. now rewrite ddpm_sigma_not_defined.
  - intros Ha. apply pow_half_neq_0, RtoC_neq_0. lra.
Qed.

(** X2.  When the schedule moves towards less noise
    ([0 < alpha_t <= alpha_{t-1} <= 1], [alpha_t < 1]) [ddpm_sigma] returns a
    real number [s] that is not negative, whose square is
    [(1 - alpha_{t-1}) / (1 - alpha_t) (1 - alpha_t / alpha_{t-1})] and is at
    most [1 - alpha_{t-1}]; it is zero exactly when [alpha_{t-1}] is
    [alpha_t] or one. *)
Theorem ddpm_sigma_bound (alphat alphatp : R) :
  0 < alphat < 1 -> alphat <= alphatp <= 1 ->
  exists s,
    ddpm_sigma alphat alphatp = Ret (RtoC s)
    /\ 0 <= s
    /\ s * s = (1 - alphatp) / (1 - alphat) * (1 - alphat / alphatp)
    /\ s * s <= 1 - alphatp
    /\ (s = 0 <-> alphatp = alphat \/ alphatp = 1).
Proof.
  intros Ha Hap.
  pose proof (radicand_bounds alphat alphatp Ha Hap) as [Hr0 Hr1].
  exists (sqrt ((1 - alphatp) / (1 - alphat) * (1 - alphat / alphatp))).
  rewrite ddpm_sigma_defined by lra. rewrite pow_half_RtoC by exact Hr0.
  split; [reflexivity |]. split; [apply sqrt_pos |].
  rewrite sqrt_sqrt by exact Hr0. split; [reflexivity |]. split; [exact Hr1 |].
  split.
  - intros Hs. apply sqrt_eq_0 in Hs; [| exact Hr0].
    apply Rmult_integral in Hs. destruct Hs as [Hs | Hs].
    + right. unfold Rdiv in Hs. apply Rmult_integral in Hs. destruct Hs as [Hs | Hs]; [lra |].
      pose proof (Rinv_0_lt_compat (1 - alphat)). lra.
    + left. assert (H : alphat / alphatp = 1) by lra.
      apply (f_equal (fun t => t * alphatp)) in H.
      unfold Rdiv in H. rewrite Rmult_assoc, Rinv_l in H by lra. lra.
  - intros [E | E]; subst alphatp.
    + replace ((1 - alphat) / (1 - alphat) * (1 - alphat / alphat)) with 0 by (field; lra).
      apply sqrt_0.
    + replace ((1 - 1) / (1 - alphat) * (1 - alphat / 1)) with 0 by (field; lra).
      apply sqrt_0.
Qed.

(** X2 at [alpha_t = 1/4], [alpha_{t-1} = 1/2]. *)
Lemma ddpm_sigma_bound_witness :
  exists s,
    ddpm_sigma (1 / 4) (1 / 2) = Ret (RtoC s)
    /\ 0 <= s
    /\ s * s = (1 - 1 / 2) / (1 - 1 / 4) * (1 - 1 / 4 / (1 / 2))
    /\ s * s <= 1 - 1 / 2
    /\ (s = 0 <-> 1 / 2 = 1 / 4 \/ 1 / 2 = 1).
Proof.
  apply (ddpm_sigma_bound (1 / 4) (1 / 2)); lra.
Defined.

(** X3.  When the schedule moves towards more noise
    ([0 < alpha_{t-1} < alpha_t < 1]) the number under the root is negative
    and [ddpm_sigma] returns a complex number with no real part and a positive
    imaginary part, not a real number. *)
Theorem ddpm_sigma_backwards (alphat alphatp : R) :
  0 < alphatp -> alphatp < alphat -> alphat < 1 ->
  exists t, 0 < t /\ ddpm_sigma alphat alphatp = Ret (0, t).
Proof.
  intros H0 H1 H2.
  assert (Hneg : (1 - alphatp) / (1 - alphat) * (1 - alphat / alphatp) < 0).
  { assert (E : (1 - alphatp) / (1 - alphat) * (1 - alphat / alphatp)
                = - ((1 - alphatp) * (alphat - alphatp) * / ((1 - alphat) * alphatp)))
      by (field; lra).
    rewrite E.
    assert (0 < (1 - alphatp) * (alphat - alphatp) * / ((1 - alphat) * alphatp)); [| lra].
    apply Rmult_lt_0_compat; [nra |]. apply Rinv_0_lt_compat. nra. }
  exists (sqrt (- ((1 - alphatp) / (1 - alphat) * (1 - alphat / alphatp)))).
  split; [apply sqrt_lt_R0; lra |].
  rewrite ddpm_sigma_defined by lra. now rewrite pow_half_RtoC_neg.
Qed.

(** X3 at [alpha_t = 1/2], [alpha_{t-1} = 1/4]. *)
Lemma ddpm_sigma_backwards_witness :
  exists t, 0 < t /\ ddpm_sigma (1 / 2) (1 / 4) = Ret (0, t).
Proof.
  apply (ddpm_sigma_backwards (1 / 2) (1 / 4)); lra.
Defined.

(** X4.  At the last step of the schedule ([alpha_{t-1} = 1]) [ddim_step]
    returns the estimated origin [x0] itself, whatever the noise scale and
    the random draw: sigma and the coefficient of [eps] are both zero. *)
Theorem ddim_step_last_step (xt x0 : tensor) (m d : nat) (alpha noise_scale : R)
    (rng : nat -> nat -> C) :
  tshape xt m d -> tshape x0 m d -> tfinite xt -> tfinite x0 ->
  0 < alpha < 1 ->
  ddim_step xt x0 (alpha, 1) (Some noise_scale) rng = Ret x0.
Proof.
  intros Hxt Hx0 Fxt Fx0 Ha.
  rewrite ddim_step_supplied by lra. f_equal.
  apply (tensor_ext _ _ m d); [now apply step_shape | assumption |].
  intros i j Hi Hj.
  destruct (tget_in_shape xt m d i j Hxt Hi Hj) as [eu Hu].
  destruct (tget_in_shape x0 m d i j Hx0 Hi Hj) as [ev Hv].
  destruct (tfinite_tget _ _ _ _ Fxt Hu) as [u ->].
  destruct (tfinite_tget _ _ _ _ Fx0 Hv) as [v ->].
  rewrite (step_entry _ _ _ _ _ _ _ _ i j u v) by (auto; apply pow_half_pos_neq_0; lra).
  rewrite Hv. do 2 f_equal.
  replace ((1 - 1) / (1 - alpha) * (1 - alpha / 1)) with 0 by (field; lra).
  replace (1 - 1) with 0 by ring.
  rewrite (pow_half_RtoC 0), sqrt_0 by lra.
  rewrite RtoC_mul, Rmult_0_l, pow2_RtoC, Rmult_0_l, RtoC_sub, Rminus_0_r.
  rewrite (pow_half_RtoC 0), sqrt_0 by lra.
  rewrite (pow_half_RtoC 1), sqrt_1 by lra.
  fold C0. rewrite !Cmul_0_l. c_ring.
Qed.

(** X4 at [alpha = 1/2] with noise scale one. *)
Lemma ddim_step_last_step_witness :
  ddim_step (real_tensor 1 [[1]]) (real_tensor 1 [[0]]) (1 / 2, 1) (Some 1)
            (fun _ _ => RtoC 1) = Ret (real_tensor 1 [[0]]).
Proof.
  apply (ddim_step_last_step (real_tensor 1 [[1]]) (real_tensor 1 [[0]]) 1 1 (1 / 2) 1
           (fun _ _ => RtoC 1)).
  - repeat split; repeat constructor.
  - repeat split; repeat constructor.
  - repeat constructor. now exists (RtoC 1).
  - repeat constructor. now exists (RtoC 0).
  - lra.
Defined.

(** X5.  The step without noise carries a sample of the forward process from
    one noise level to the other with the same noise: where
    [xt = sqrt(alpha_t) x0 + sqrt(1 - alpha_t) e], the step with scale zero
    returns [sqrt(alpha_{t-1}) x0 + sqrt(1 - alpha_{t-1}) e]. *)
Theorem ddim_step_forward_consistent (xt x0 : tensor) (m d : nat) (alpha alpha_past : R)
    (rng : nat -> nat -> C) :
  tshape xt m d -> tshape x0 m d ->
  0 < alpha < 1 -> 0 < alpha_past <= 1 ->
  exists x_next,
    ddim_step xt x0 (alpha, alpha_past) (Some 0) rng = Ret x_next
    /\ tshape x_next m d
    /\ forall i j v e,
        tget x0 i j = Some (Some v) ->
        tget xt i j
        = Some (Some (Cadd (Cmul (RtoC (sqrt alpha)) v) (Cmul (RtoC (sqrt (1 - alpha))) e))) ->
        tget x_next i j
        = Some (Some (Cadd (Cmul (RtoC (sqrt alpha_past)) v)
                           (Cmul (RtoC (sqrt (1 - alpha_past))) e))).
Proof.
  intros Hxt Hx0 Ha Hap.
  rewrite ddim_step_supplied by lra.
  eexists. split; [reflexivity |]. split; [now apply step_shape |].
  intros i j v e Hv Hu.
  rewrite (step_entry _ _ _ _ _ _ _ _ i j _ v) by (eauto; apply pow_half_pos_neq_0; lra).
  do 2 f_equal.
  rewrite Cmul_0_r. unfold pow2. rewrite !Cmul_0_l.
  replace (Csub (RtoC (1 - alpha_past)) C0) with (RtoC (1 - alpha_past)) by c_ring.
  rewrite (pow_half_RtoC alpha), (pow_half_RtoC (1 - alpha)),
    (pow_half_RtoC alpha_past), (pow_half_RtoC (1 - alpha_past)) by lra.
  pose proof (sqrt_lt_R0 (1 - alpha)) as Hs.
  apply C_eq; unfold Cdiv, Cnorm2; simpl; field; nra.
Qed.

(** X5 at [alpha = 1/4], [alpha_past = 1/2]. *)
Lemma ddim_step_forward_consistent_witness :
  exists x_next,
    ddim_step (real_tensor 1 [[1]]) (real_tensor 1 [[0]]) (1 / 4, 1 / 2) (Some 0)
              (fun _ _ => RtoC 1) = Ret x_next
    /\ tshape x_next 1 1
    /\ forall i j v e,
        tget (real_tensor 1 [[0]]) i j = Some (Some v) ->
        tget (real_tensor 1 [[1]]) i j
        = Some (Some (Cadd (Cmul (RtoC (sqrt (1 / 4))) v)
                           (Cmul (RtoC (sqrt (1 - 1 / 4))) e))) ->
        tget x_next i j
        = Some (Some (Cadd (Cmul (RtoC (sqrt (1 / 2))) v)
                           (Cmul (RtoC (sqrt (1 - 1 / 2))) e))).
Proof.
  apply (ddim_step_forward_consistent (real_tensor 1 [[1]]) (real_tensor 1 [[0]]) 1 1
           (1 / 4) (1 / 2) (fun _ _ => RtoC 1)).
  - repeat split; repeat constructor.
  - repeat split; repeat constructor.
  - lra.
  - lra.
Defined.

(** X6.  On real tensors and real draws, when the schedule moves towards less
    noise and the noise scale is between zero and one, every entry of the
    step is a real number: [sqrt(alpha_{t-1}) x0 + sqrt(1 - alpha_{t-1} -
    sigma^2) eps + sigma e] with real roots of numbers that are not
    negative. *)
Theorem ddim_step_real (xt x0 : tensor) (m d : nat) (alpha alpha_past noise_scale : R)
    (draw : nat -> nat -> R) :
  tshape xt m d -> tshape x0 m d ->
  0 < alpha < 1 -> alpha <= alpha_past <= 1 -> 0 <= noise_scale <= 1 ->
  exists x_next,
    ddim_step xt x0 (alpha, alpha_past) (Some noise_scale) (fun i j => RtoC (draw i j))
    = Ret x_next
    /\ forall i j u v,
        tget xt i j = Some (Some (RtoC u)) -> tget x0 i j = Some (Some (RtoC v)) ->
        tget x_next i j
        = Some (Some (RtoC (real_x_next alpha alpha_past noise_scale u v (draw i j)))).
Proof.
  intros Hxt Hx0 Ha Hap Hns.
  rewrite ddim_step_supplied by lra.
  eexists. split; [reflexivity |].
  intros i j u v Hu Hv.
  rewrite (step_entry _ _ _ _ _ _ _ _ i j (RtoC u) (RtoC v))
    by (auto; apply pow_half_pos_neq_0; lra).
  rewrite <- spec_x_next_real by lra.
  unfold spec_x_next, spec_eps, spec_sigma, pow2.
  now rewrite (Cmul_comm (RtoC noise_scale)).
Qed.

(** X6 at [alpha = 1/4], [alpha_past = 1/2], scale one. *)
Lemma ddim_step_real_witness :
  exists x_next,
    ddim_step (real_tensor 1 [[1]]) (real_tensor 1 [[0]]) (1 / 4, 1 / 2) (Some 1)
              (fun i j => RtoC 1) = Ret x_next
    /\ forall i j u v,
        tget (real_tensor 1 [[1]]) i j = Some (Some (RtoC u)) ->
        tget (real_tensor 1 [[0]]) i j = Some (Some (RtoC v)) ->
        tget x_next i j = Some (Some (RtoC (real_x_next (1 / 4) (1 / 2) 1 u v 1))).
Proof.
  apply (ddim_step_real (real_tensor 1 [[1]]) (real_tensor 1 [[0]]) 1 1 (1 / 4) (1 / 2) 1
           (fun _ _ => 1)).
  - repeat split; repeat constructor.
  - repeat split; repeat constructor.
  - lra.
  - lra.
  - lra.
Defined.

(** ** Further properties of the estimator *)

Lemma euclidean_norm_singleton (e : elt) : euclidean_norm [e] = eabs e.
Proof.
  destruct e as [z |]; [| reflexivity].
  unfold euclidean_norm, eabs, elift1, esum. cbn [map fold_right option_map].
  unfold eadd, elift2, C0. cbn [option_map]. rewrite RtoC_add, Rplus_0_r.
  rewrite pow_half_RtoC; [reflexivity |].
  unfold Cnorm2. nra.
Qed.

(** X7.  The one-column path of [norm] ([torch.abs(x).squeeze(-1)]) gives the
    value of the general path ([torch.norm(x, dim=-1)]): for every tensor of
    [n x d] elements, also for [d = 1], [norm] is the Euclidean norm of each
    row. *)
Theorem norm_is_euclidean (v : tensor) (n d : nat) :
  tshape v n d ->
  BayesianEstimator.norm v = map euclidean_norm (rows v)
  /\ length (BayesianEstimator.norm v) = n.
Proof.
  intros (Hc & Hr & Hf).
  assert (H : BayesianEstimator.norm v = map euclidean_norm (rows v)).
  { unfold BayesianEstimator.norm. destruct (Nat.eqb (ncols v) 1) eqn:E; [| reflexivity].
    apply Nat.eqb_eq in E. apply map_ext_in. intros r Hin.
    rewrite Forall_forall in Hf. specialize (Hf r Hin). rewrite <- Hc, E in Hf.
    destruct r as [| e [| ? ?]]; try discriminate.
    simpl. symmetry. apply euclidean_norm_singleton. }
  split; [exact H |]. now rewrite H, length_map.
Qed.

(** X7 for a tensor of two rows and one column. *)
Lemma norm_is_euclidean_witness :
  BayesianEstimator.norm (real_tensor 1 [[3]; [-4]])
  = map euclidean_norm (rows (real_tensor 1 [[3]; [-4]]))
  /\ length (BayesianEstimator.norm (real_tensor 1 [[3]; [-4]])) = 2%nat.
Proof.
  apply (norm_is_euclidean (real_tensor 1 [[3]; [-4]]) 2 1).
  repeat split; repeat constructor.
Defined.

Lemma sq_dist_nonneg (a b : list R) : 0 <= sq_dist a b.
Proof.
  revert b. induction a as [| u a IH]; intros [| v b]; try (unfold sq_dist; simpl; lra).
  change (sq_dist (u :: a) (v :: b)) with ((u - v) * (u - v) + sq_dist a b).
  specialize (IH b). pose proof (Rle_0_sqr (u - v)) as Hsq. unfold Rsqr in Hsq. lra.
Qed.

Lemma sq_dist_eq_0 (a b : list R) :
  length a = length b -> (sq_dist a b = 0 <-> a = b).
Proof.
  revert b. induction a as [| u a IH]; intros [| v b] Hl; simpl in Hl; try discriminate.
  - unfold sq_dist; simpl. tauto.
  - assert (Hl' : length a = length b) by lia.
    change (sq_dist (u :: a) (v :: b)) with ((u - v) * (u - v) + sq_dist a b).
    pose proof (sq_dist_nonneg a b) as Hn. split.
    + intros H. assert (Huv : u = v) by nra. subst v.
      assert (H0 : sq_dist a b = 0) by nra.
      f_equal. now apply IH.
    + intros E. inversion E; subst.
      assert (H0 : sq_dist b b = 0) by now apply IH. nra.
Qed.

Lemma gaussian_prob_real_sigma (q : list R) (mu : list (list R)) (d : nat) (s : R) :
  length q = d -> Forall (fun r => length r = d) mu -> s <> 0 ->
  BayesianEstimator.gaussian_prob (real_vector q) (real_tensor d mu) (RtoC s)
  = real_vector (map (fun mi => exp (- sq_dist q mi / (2 * (s * s)))) mu).
Proof.
  intros Hq Hmu Hs. unfold BayesianEstimator.gaussian_prob.
  rewrite <- (map_map epow2 (fun e => eexp (ediv (eneg e) _))).
  rewrite (norm_squared_real q mu d Hq Hmu).
  rewrite pow2_RtoC, RtoC_mul.
  rewrite (map_real _ (fun t => exp (- t / (2 * (s * s))))).
  - now rewrite map_map.
  - intros t. unfold eneg, eexp, elift1, escalar. cbn [option_map].
    rewrite RtoC_neg, ediv_real by nra. cbn [option_map]. now rewrite Cexp_RtoC.
Qed.

(** X8.  [gaussian_prob] as [_estimate] calls it, with the standard deviation
    [(1 - alpha) ** 0.5] of a coefficient [0 <= alpha < 1]: for a real query point
    and real means of its dimension it returns one real likelihood per mean,
    each between zero and one, and equal to one for a mean that is the query
    point itself. *)
Theorem gaussian_prob_range (q : list R) (mu : list (list R)) (d : nat) (alpha : R) :
  length q = d -> Forall (fun r => length r = d) mu -> 0 <= alpha < 1 ->
  exists p,
    BayesianEstimator.gaussian_prob (real_vector q) (real_tensor d mu)
                                    (pow_half (RtoC (1 - alpha)))
    = real_vector p
    /\ length p = length mu
    /\ forall i p_i mu_i,
        nth_error p i = Some p_i -> nth_error mu i = Some mu_i ->
        0 <= p_i <= 1 /\ (mu_i = q -> p_i = 1).
Proof.
  intros Hq Hmu Ha.
  assert (Hs : 0 < sqrt (1 - alpha)) by (apply sqrt_lt_R0; lra).
  set (sigma := sqrt (1 - alpha)) in *.
  exists (map (fun mi => exp (- sq_dist q mi / (2 * (sigma * sigma)))) mu).
  split.
  { rewrite pow_half_RtoC by lra. apply gaussian_prob_real_sigma; try assumption.
    fold sigma. lra. }
  split; [apply length_map |].
  intros i p_i mu_i Hp Hm. rewrite nth_error_map, Hm in Hp. injection Hp as <-.
  pose proof (sq_dist_nonneg q mu_i) as Hn.
  assert (Hden : 0 < 2 * (sigma * sigma)) by nra.
  assert (Harg : - sq_dist q mu_i / (2 * (sigma * sigma)) <= 0).
  { unfold Rdiv. pose proof (Rinv_0_lt_compat _ Hden). nra. }
  split; [split |].
  - left. apply exp_pos.
  - rewrite <- exp_0. destruct Harg as [Hlt | Heq].
    + left. now apply exp_increasing.
    + rewrite Heq. lra.
  - intros E. subst mu_i.
    assert (H0 : sq_dist q q = 0) by now apply sq_dist_eq_0.
    rewrite H0. replace (- 0 / (2 * (sigma * sigma))) with 0 by (field; lra).
    apply exp_0.
Qed.

(** X8 for the query point [[0]], the means [[0]] and [[1]] and [alpha = 1/2]. *)
Lemma gaussian_prob_range_witness :
  exists p,
    BayesianEstimator.gaussian_prob (real_vector [0]) (real_tensor 1 [[0]; [1]])
                                    (pow_half (RtoC (1 - 1 / 2)))
    = real_vector p
    /\ length p = length [[0]; [1]]
    /\ forall i p_i mu_i,
        nth_error p i = Some p_i -> nth_error [[0]; [1]] i = Some mu_i ->
        0 <= p_i <= 1 /\ (mu_i = [0] -> p_i = 1).
Proof.
  apply (gaussian_prob_range [0] [[0]; [1]] 1 (1 / 2)).
  - reflexivity.
  - repeat constructor.
  - lra.
Defined.

Lemma esum_repeat_real (c : R) (m : nat) :
  esum (repeat (Some (RtoC c)) m) = Some (RtoC (INR m * c)).
Proof.
  induction m as [| m IH].
  - simpl. unfold C0. do 2 f_equal. ring.
  - change (esum (repeat (Some (RtoC c)) (S m)))
      with (eadd (Some (RtoC c)) (esum (repeat (Some (RtoC c)) m))).
    rewrite IH, S_INR. simpl. rewrite RtoC_add. do 2 f_equal. ring.
Qed.

(** X9.  With the uniform density, [density] gives every one of the [M] query
    points the weight [1 / M], whatever the points are; the weights of a batch
    that is not empty sum to one, and an empty batch gets an empty tensor and
    no division by zero.  For any other density method it returns [None]. *)
Theorem density_uniform (self : BayesianEstimator.t) (x_t : tensor) :
  (BayesianEstimator.density_method self = "uniform"%string
   /\ fst (BayesianEstimator.density x_t self)
      = Ret (Some (repeat (Some (RtoC (1 / INR (nrows x_t)))) (nrows x_t)))
   /\ (nrows x_t <> 0%nat ->
       esum (repeat (Some (RtoC (1 / INR (nrows x_t)))) (nrows x_t)) = Some (RtoC 1)))
  \/ (BayesianEstimator.density_method self <> "uniform"%string
      /\ fst (BayesianEstimator.density x_t self) = Ret None).
Proof.
  unfold BayesianEstimator.density, mbind, get, mret; simpl.
  destruct (String.eqb_spec (BayesianEstimator.density_method self) "uniform") as [E | Ne].
  - left. split; [exact E |]. simpl. rewrite uniform_weights. split; [reflexivity |].
    intros Hm. rewrite esum_repeat_real. do 2 f_equal. field.
    now apply not_0_INR.
  - right. now split.
Qed.

Lemma append_density_method (other self : BayesianEstimator.t) :
  BayesianEstimator.density_method (snd (BayesianEstimator.append other self))
  = BayesianEstimator.density_method self.
Proof.
  unfold BayesianEstimator.append, mbind, get, put, lift, cat; simpl.
  now destruct (Nat.eqb (ncols (BayesianEstimator.x self)) (ncols (BayesianEstimator.x other))).
Qed.

Lemma append_all_density_method (others : list BayesianEstimator.t)
    (self : BayesianEstimator.t) :
  BayesianEstimator.density_method (append_all others self)
  = BayesianEstimator.density_method self.
Proof.
  unfold append_all. revert self. induction others as [| o others IH]; intros self; simpl.
  - reflexivity.
  - rewrite IH. apply append_density_method.
Qed.

Lemma length_sum_dim0 (d : nat) (t : list (list elt)) :
  Forall (fun r => length r = d) t -> length (sum_dim0 d t) = d.
Proof.
  unfold sum_dim0. induction 1 as [| r t Hr Ht IH]; simpl.
  - apply repeat_length.
  - rewrite length_zip_with, Hr, IH. apply Nat.min_id.
Qed.

Lemma Forall_length_scaled_rows (d : nat) (ws : list elt) (x : list (list elt)) :
  Forall (fun r => length r = d) x ->
  Forall (fun r => length r = d) (zip_with (fun p r => map (emul p) r) ws x).
Proof.
  intros Hx. revert ws. induction Hx as [| r x Hr Hx IH]; intros [| w ws]; simpl;
    constructor.
  - now rewrite length_map.
  - apply IH.
Qed.

(** [_estimate] returns one number for each column of the population. *)
Lemma length_estimate_row (self : BayesianEstimator.t) (n d : nat) (r : list elt) (p : elt) :
  tshape (BayesianEstimator.x self) n d ->
  length (BayesianEstimator._estimate self r p) = d.
Proof.
  intros (Hc & _ & Hf). unfold BayesianEstimator._estimate.
  rewrite length_map, Hc. apply length_sum_dim0.
  now apply Forall_length_scaled_rows.
Qed.

(** [append] keeps one fitness value for each stored sample: the appended
    estimator either has another number of columns, and [torch.cat] raises
    before anything is assigned, or brings as many fitness values as samples. *)
Lemma append_shape (other self : BayesianEstimator.t) (d : nat) :
  tshape (BayesianEstimator.x self) (length (BayesianEstimator.fitness self)) d ->
  (ncols (BayesianEstimator.x other) = d ->
   tshape (BayesianEstimator.x other) (length (BayesianEstimator.fitness other)) d) ->
  let s := snd (BayesianEstimator.append other self) in
  tshape (BayesianEstimator.x s) (length (BayesianEstimator.fitness s)) d.
Proof.
  intros (Hc & Hr & Hf) Ho.
  unfold BayesianEstimator.append, mbind, get, put, lift, cat; simpl.
  destruct (Nat.eqb_spec (ncols (BayesianEstimator.x self))
                         (ncols (BayesianEstimator.x other))) as [E | Ne]; simpl.
  - destruct Ho as (_ & Hr' & Hf'); [congruence |].
    unfold tshape; simpl. rewrite !length_app, Hr, Hr'.
    repeat split; auto. apply Forall_app. now split.
  - repeat split; auto.
Qed.

Lemma append_all_shape (others : list BayesianEstimator.t) (self : BayesianEstimator.t)
    (d : nat) :
  tshape (BayesianEstimator.x self) (length (BayesianEstimator.fitness self)) d ->
  Forall (fun o => ncols (BayesianEstimator.x o) = d ->
                   tshape (BayesianEstimator.x o)
                          (length (BayesianEstimator.fitness o)) d) others ->
  tshape (BayesianEstimator.x (append_all others self))
         (length (BayesianEstimator.fitness (append_all others self))) d.
Proof.
  intros Hs Ho. unfold append_all. revert self Hs.
  induction Ho as [| o others Ho _ IH]; intros self Hs; simpl.
  - exact Hs.
  - apply IH. now apply append_shape.
Qed.

(** X10.  An estimator that its constructor returned for [n] samples of [d]
    columns and [n] fitness values, after any number of [append] calls, each
    with an estimator that holds one fitness value per [d]-column sample or
    has another number of columns (then [append] raises and changes
    nothing), still has the uniform density method and one fitness value per
    sample: for a coefficient [alpha] in [[0, 1]], [estimate] and [__call__]
    on a batch of [m > 0] points of [d] columns return an [m x d] tensor,
    raise nothing, and leave the estimator as it was. *)
Theorem estimate_after_init_returns (x : tensor) (fitness : list elt) (alpha : R)
    (density : string) (h : R) (self : BayesianEstimator.t)
    (others : list BayesianEstimator.t) (x_t : tensor) (d m : nat) :
  BayesianEstimator.init x fitness alpha density h = Ret self ->
  0 <= alpha <= 1 ->
  tshape x (length fitness) d ->
  Forall (fun o => ncols (BayesianEstimator.x o) = d ->
                   tshape (BayesianEstimator.x o)
                          (length (BayesianEstimator.fitness o)) d) others ->
  tshape x_t m d -> (0 < m)%nat ->
  tshape (BayesianEstimator.x (append_all others self))
         (length (BayesianEstimator.fitness (append_all others self))) d
  /\ exists x0_est,
      BayesianEstimator.estimate x_t (append_all others self)
      = (Ret x0_est, append_all others self)
      /\ BayesianEstimator.call x_t (append_all others self)
         = (Ret x0_est, append_all others self)
      /\ tshape x0_est m d.
Proof.
  intros Hinit _ Hx Ho Hxt _.
  assert (Hself : self = BayesianEstimator.Build x fitness alpha density h
                  /\ density = "uniform"%string).
  { unfold BayesianEstimator.init in Hinit. simpl in Hinit.
    destruct (String.eqb_spec density "uniform") as [E | Ne]; simpl in Hinit.
    - injection Hinit as <-. now split.
    - discriminate. }
  destruct Hself as [-> Hd].
  assert (Hs : tshape (BayesianEstimator.x
                         (append_all others (BayesianEstimator.Build x fitness alpha density h)))
                      (length (BayesianEstimator.fitness
                         (append_all others (BayesianEstimator.Build x fitness alpha density h))))
                      d)
    by now apply append_all_shape.
  split; [exact Hs |].
  unfold BayesianEstimator.call.
  rewrite estimate_uniform by (rewrite append_all_density_method; exact Hd).
  eexists. split; [reflexivity |]. split; [reflexivity |].
  destruct Hxt as (_ & Hm & _). destruct Hs as (Hc & Hn & Hf).
  unfold tshape; simpl. rewrite length_map. repeat split; auto.
  rewrite Forall_map. apply Forall_forall. intros r _.
  eapply length_estimate_row. repeat split; eauto.
Qed.

(** X10 for an estimator of one sample to which one estimator is appended. *)
Lemma estimate_after_init_returns_witness :
  let self := BayesianEstimator.Build (real_tensor 1 [[0]]) (real_vector [1]) (1 / 2)
                                      "uniform" (1 / 10) in
  let others := [BayesianEstimator.Build (real_tensor 1 [[1]]) (real_vector [0]) (1 / 2)
                                         "uniform" (1 / 10)] in
  tshape (BayesianEstimator.x (append_all others self))
         (length (BayesianEstimator.fitness (append_all others self))) 1
  /\ exists x0_est,
      BayesianEstimator.estimate (real_tensor 1 [[0]]) (append_all others self)
      = (Ret x0_est, append_all others self)
      /\ BayesianEstimator.call (real_tensor 1 [[0]]) (append_all others self)
         = (Ret x0_est, append_all others self)
      /\ tshape x0_est 1 1.
Proof.
  intros self others.
  apply (estimate_after_init_returns
           (real_tensor 1 [[0]]) (real_vector [1]) (1 / 2) "uniform" (1 / 10)
           self others (real_tensor 1 [[0]]) 1 1).
  - reflexivity.
  - lra.
  - repeat split; repeat constructor.
  - repeat constructor.
  - repeat split; repeat constructor.
  - lia.
Defined.

Lemma estimate_row_empty (d : nat) (alpha h : R) (dm : string) (r : list elt) (p : elt) :
  BayesianEstimator._estimate (BayesianEstimator.Build (Tensor d []) [] alpha dm h) r p
  = repeat (Some C0) d.
Proof.
  unfold BayesianEstimator._estimate, BayesianEstimator.gaussian_prob,
    BayesianEstimator.norm, BayesianEstimator.row_sub, sum_dim0, esum; simpl.
  assert (H : ediv (Some C0) (Some (Cadd C0 (RtoC eps9))) = Some C0).
  { unfold C0. rewrite RtoC_add, ediv_real.
    - do 2 f_equal. unfold Rdiv. ring.
    - pose proof eps9_pos. lra. }
  destruct (Nat.eqb d 1); simpl; rewrite map_repeat; now rewrite H.
Qed.

(** X11.  For a population without samples ([x] of [0 x d], no fitness value)
    [estimate] returns the [m x d] tensor of zeros, whatever the query points
    and [alpha] are: the sums are empty and the only division is of zero by
    [1e-9]. *)
Theorem estimate_empty_population (d m : nat) (alpha h : R) (x_t : tensor) :
  tshape x_t m d ->
  let self := BayesianEstimator.Build (Tensor d []) [] alpha "uniform" h in
  BayesianEstimator.estimate x_t self
  = (Ret (Tensor d (repeat (repeat (Some C0) d) m)), self).
Proof.
  intros (_ & Hm & _) self. rewrite estimate_uniform by reflexivity.
  do 3 f_equal. simpl. rewrite <- Hm.
  rewrite (map_ext _ (fun _ => repeat (Some C0) d)).
  - apply map_const.
  - intros r. apply estimate_row_empty.
Qed.

(** X11 for a batch of one point in one dimension. *)
Lemma estimate_empty_population_witness :
  BayesianEstimator.estimate (real_tensor 1 [[5]])
    (BayesianEstimator.Build (Tensor 1 []) [] (1 / 2) "uniform" (1 / 10))
  = (Ret (Tensor 1 (repeat (repeat (Some C0) 1) 1)),
     BayesianEstimator.Build (Tensor 1 []) [] (1 / 2) "uniform" (1 / 10)).
Proof.
  apply (estimate_empty_population 1 1 (1 / 2) (1 / 10) (real_tensor 1 [[5]])).
  repeat split; repeat constructor.
Defined.

Lemma weighted_sum_bounds (g : list R -> R) (lo hi : R) (ws : list R) (x : list (list R)) :
  length ws = length x ->
  Forall (fun w => 0 <= w) ws ->
  (forall xi, In xi x -> lo <= g xi <= hi) ->
  lo * rsum ws <= rsum (zip_with (fun w xi => w * g xi) ws x) <= hi * rsum ws.
Proof.
  intros Hl Hw. revert x Hl.
  induction Hw as [| w ws Hw0 Hw IH]; intros [| xi x] Hl Hg; simpl in Hl; try discriminate.
  - simpl. lra.
  - change (rsum (w :: ws)) with (w + rsum ws).
    change (rsum (zip_with (fun w xi => w * g xi) (w :: ws) (xi :: x)))
      with (w * g xi + rsum (zip_with (fun w xi => w * g xi) ws x)).
    assert (Hx : lo <= g xi <= hi) by (apply Hg; now left).
    assert (IH' : lo * rsum ws <= rsum (zip_with (fun w xi => w * g xi) ws x) <= hi * rsum ws).
    { apply IH; [lia |]. intros y Hy. apply Hg. now right. }
    nra.
Qed.

Lemma rsum_nonneg (l : list R) : Forall (fun w => 0 <= w) l -> 0 <= rsum l.
Proof.
  induction 1 as [| w ws Hw0 Hw IH]; [simpl; lra |].
  change (rsum (w :: ws)) with (w + rsum ws). lra.
Qed.

Lemma spec_weights_nonneg (a : R) (m : nat) (x : list (list R)) (f : list R) (q : list R) :
  Forall (fun v => 0 <= v) f -> Forall (fun w => 0 <= w) (spec_weights a m x f q).
Proof.
  intros Hf. unfold spec_weights. revert x.
  induction Hf as [| fi f Hfi Hf IH]; intros [| xi x]; simpl; constructor.
  - left. apply spec_weight_pos; [apply uniform_weight_nonneg | exact Hfi].
  - apply IH.
Qed.

(** X12.  The estimate stays in the box of the population: if coordinate [k]
    of every stored sample lies in [[lo, hi]] with [lo <= 0 <= hi], and the
    fitness values are not negative, then coordinate [k] of every row of
    [estimate] is a real number in [[lo, hi]]. *)
Theorem estimate_in_box (n d m : nat) (x : list (list R)) (fitness : list R) (alpha h : R)
    (x_t : list (list R)) (k : nat) (lo hi : R) :
  mshape x n d -> length fitness = n -> Forall (fun v => 0 <= v) fitness ->
  0 < alpha < 1 -> mshape x_t m d -> (k < d)%nat ->
  lo <= 0 <= hi -> (forall x_i, In x_i x -> lo <= nth k x_i 0 <= hi) ->
  let self :=
    BayesianEstimator.Build (real_tensor d x) (real_vector fitness) alpha "uniform" h in
  exists x0_est,
    fst (BayesianEstimator.estimate (real_tensor d x_t) self) = Ret x0_est
    /\ forall j, (j < m)%nat ->
        exists r, tget x0_est j k = Some (Some (RtoC r)) /\ lo <= r <= hi.
Proof.
  intros Hx Hf Hpos Ha Hxt Hk Hbox Hin self.
  destruct (estimate_real n d m x fitness alpha h x_t Hx Hf Ha Hxt) as (out & He & _ & Hent).
  exists out. fold self in He. rewrite He. split; [reflexivity |].
  intros j Hj. destruct Hxt as [Hm _].
  destruct (nth_error x_t j) as [q |] eqn:Eq.
  2:{ apply nth_error_None in Eq. lia. }
  pose proof (spec_den_pos alpha m x fitness q Hpos) as Hden.
  exists (spec_num alpha m x fitness q k / spec_den alpha m x fitness q).
  split.
  - rewrite (Hent j k q Eq Hk). now rewrite ediv_real by lra.
  - assert (Hlen : length (spec_weights alpha m x fitness q) = length x).
    { unfold spec_weights. rewrite length_zip_with. destruct Hx as [Hn _]. lia. }
    pose proof (weighted_sum_bounds (fun xi => nth k xi 0) lo hi
                  (spec_weights alpha m x fitness q) x Hlen
                  (spec_weights_nonneg alpha m x fitness q Hpos) Hin) as Hb.
    pose proof (rsum_nonneg _ (spec_weights_nonneg alpha m x fitness q Hpos)) as Hs.
    unfold spec_den in *. unfold spec_num. pose proof eps9_pos as He9.
    split.
    + apply Rmult_le_reg_r with (rsum (spec_weights alpha m x fitness q) + eps9); [lra |].
      unfold Rdiv. rewrite Rmult_assoc, Rinv_l by lra. nra.
    + apply Rmult_le_reg_r with (rsum (spec_weights alpha m x fitness q) + eps9); [lra |].
      unfold Rdiv. rewrite Rmult_assoc, Rinv_l by lra. nra.
Qed.

(** X12 for samples in [[0, 1]]. *)
Lemma estimate_in_box_witness :
  let self :=
    BayesianEstimator.Build (real_tensor 1 [[0]; [1]]) (real_vector [1; 0]) (1 / 2)
                            "uniform" (1 / 10) in
  exists x0_est,
    fst (BayesianEstimator.estimate (real_tensor 1 [[0]]) self) = Ret x0_est
    /\ forall j, (j < 1)%nat ->
        exists r, tget x0_est j 0 = Some (Some (RtoC r)) /\ 0 <= r <= 1.
Proof.
  apply (estimate_in_box 2 1 1 [[0]; [1]] [1; 0] (1 / 2) (1 / 10) [[0]] 0 0 1).
  - split; [reflexivity | repeat constructor].
  - reflexivity.
  - repeat constructor; lra.
  - lra.
  - split; [reflexivity | repeat constructor].
  - lia.
  - lra.
  - intros x_i [<- | [<- | []]]; simpl; lra.
Defined.

Lemma zip_with_app {A B D : Type} (f : A -> B -> D) (l1 l2 : list A) (m1 m2 : list B) :
  length l1 = length m1 ->
  zip_with f (l1 ++ l2) (m1 ++ m2) = zip_with f l1 m1 ++ zip_with f l2 m2.
Proof.
  revert m1. induction l1 as [| a l1 IH]; intros [| b m1] Hl; simpl in *; try discriminate.
  - reflexivity.
  - f_equal. apply IH. lia.
Qed.

Lemma rsum_app (a b : list R) : rsum (a ++ b) = rsum a + rsum b.
Proof.
  induction a as [| u a IH]; [simpl; ring |].
  change (rsum ((u :: a) ++ b)) with (u + rsum (a ++ b)).
  change (rsum (u :: a)) with (u + rsum a). rewrite IH. ring.
Qed.

Lemma length_spec_weights (a : R) (m : nat) (x : list (list R)) (f q : list R) :
  length f = length x -> length (spec_weights a m x f q) = length x.
Proof. intros H. unfold spec_weights. rewrite length_zip_with. lia. Qed.

(** X13.  After [self.append(other)] the estimate pools the two populations:
    its numerator is the sum of the numerators of the two populations and its
    weight sum the sum of their weight sums, both taken at the [alpha] of
    [self]; the [alpha], density method and bandwidth of [other] play no
    part. *)
Theorem append_estimate_additive (nA nB d m : nat) (xA xB : list (list R)) (fA fB : list R)
    (alpha h alpha' h' : R) (density' : string) (x_t : list (list R)) :
  mshape xA nA d -> length fA = nA -> mshape xB nB d -> length fB = nB ->
  0 < alpha < 1 -> mshape x_t m d ->
  let self := BayesianEstimator.Build (real_tensor d xA) (real_vector fA) alpha "uniform" h in
  let other :=
    BayesianEstimator.Build (real_tensor d xB) (real_vector fB) alpha' density' h' in
  exists x0_est,
    fst (BayesianEstimator.estimate (real_tensor d x_t)
           (snd (BayesianEstimator.append other self))) = Ret x0_est
    /\ forall j k x_t_j,
        nth_error x_t j = Some x_t_j -> (k < d)%nat ->
        tget x0_est j k
        = Some (ediv (Some (RtoC (spec_num alpha m xA fA x_t_j k
                                  + spec_num alpha m xB fB x_t_j k)))
                     (Some (RtoC (rsum (spec_weights alpha m xA fA x_t_j)
                                  + rsum (spec_weights alpha m xB fB x_t_j) + eps9)))).
Proof.
  intros [HnA HxA] HfA [HnB HxB] HfB Ha Hxt self other.
  assert (Happ : snd (BayesianEstimator.append other self)
                 = BayesianEstimator.Build (real_tensor d (xA ++ xB)) (real_vector (fA ++ fB))
                                           alpha "uniform" h).
  { unfold BayesianEstimator.append, mbind, get, put, lift, cat; simpl.
    rewrite Nat.eqb_refl. simpl. unfold BayesianEstimator.set_fitness; simpl.
    unfold real_tensor, real_vector. now rewrite !map_app. }
  rewrite Happ.
  assert (Hx : mshape (xA ++ xB) (nA + nB) d).
  { split; [rewrite length_app; lia | now apply Forall_app]. }
  assert (Hf : length (fA ++ fB) = (nA + nB)%nat) by (rewrite length_app; lia).
  destruct (estimate_real (nA + nB) d m (xA ++ xB) (fA ++ fB) alpha h x_t Hx Hf Ha Hxt)
    as (out & He & _ & Hent).
  exists out. rewrite He. split; [reflexivity |].
  intros j k q Hj Hk. rewrite (Hent j k q Hj Hk). do 4 f_equal.
  - unfold spec_num, spec_weights.
    rewrite (zip_with_app _ fA fB xA xB) by lia.
    rewrite zip_with_app by (rewrite length_zip_with; lia).
    apply rsum_app.
  - unfold spec_den, spec_weights.
    rewrite (zip_with_app _ fA fB xA xB) by lia.
    now rewrite rsum_app.
Qed.

(** X13 for two estimators of one sample each. *)
Lemma append_estimate_additive_witness :
  let self :=
    BayesianEstimator.Build (real_tensor 1 [[0]]) (real_vector [1]) (1 / 2) "uniform" (1 / 10) in
  let other :=
    BayesianEstimator.Build (real_tensor 1 [[1]]) (real_vector [0]) (1 / 4) "uniform" (1 / 5) in
  exists x0_est,
    fst (BayesianEstimator.estimate (real_tensor 1 [[0]])
           (snd (BayesianEstimator.append other self))) = Ret x0_est
    /\ forall j k x_t_j,
        nth_error [[0]] j = Some x_t_j -> (k < 1)%nat ->
        tget x0_est j k
        = Some (ediv (Some (RtoC (spec_num (1 / 2) 1 [[0]] [1] x_t_j k
                                  + spec_num (1 / 2) 1 [[1]] [0] x_t_j k)))
                     (Some (RtoC (rsum (spec_weights (1 / 2) 1 [[0]] [1] x_t_j)
                                  + rsum (spec_weights (1 / 2) 1 [[1]] [0] x_t_j) + eps9)))).
Proof.
  apply (append_estimate_additive 1 1 1 1 [[0]] [[1]] [1] [0] (1 / 2) (1 / 10) (1 / 4) (1 / 5)
           "uniform" [[0]]).
  - split; [reflexivity | repeat constructor].
  - reflexivity.
  - split; [reflexivity | repeat constructor].
  - reflexivity.
  - lra.
  - split; [reflexivity | repeat constructor].
Defined.

Lemma zip_with_combine {A B D : Type} (f : A -> B -> D) (l : list A) (m : list B) :
  zip_with f l m = map (fun p => f (fst p) (snd p)) (combine l m).
Proof.
  revert m. induction l as [| a l IH]; intros [| b m]; simpl; try reflexivity.
  now rewrite IH.
Qed.

Lemma zip_with_zip_with_combine {A B D E : Type} (g : D -> B -> E) (f : A -> B -> D)
    (l : list A) (m : list B) :
  zip_with g (zip_with f l m) m = map (fun p => g (f (fst p) (snd p)) (snd p)) (combine l m).
Proof.
  revert m. induction l as [| a l IH]; intros [| b m]; simpl; try reflexivity.
  now rewrite IH.
Qed.

Lemma rsum_Permutation (a b : list R) : Permutation a b -> rsum a = rsum b.
Proof.
  induction 1 as [| u a b _ IH | u v a | a b c _ IH1 _ IH2].
  - reflexivity.
  - change (u + rsum a = u + rsum b). now rewrite IH.
  - change (v + (u + rsum a) = u + (v + rsum a)). ring.
  - now rewrite IH1.
Qed.

(** X14.  The order of the population does not matter: two estimators whose
    (fitness, sample) pairs are a permutation of each other return the same
    estimate for every batch. *)
Theorem estimate_population_order (n d m : nat) (x x' : list (list R)) (fitness fitness' : list R)
    (alpha h : R) (x_t : list (list R)) :
  mshape x n d -> length fitness = n -> mshape x' n d -> length fitness' = n ->
  Permutation (combine fitness x) (combine fitness' x') ->
  0 < alpha < 1 -> mshape x_t m d ->
  exists x0_est,
    fst (BayesianEstimator.estimate (real_tensor d x_t)
           (BayesianEstimator.Build (real_tensor d x) (real_vector fitness) alpha "uniform" h))
    = Ret x0_est
    /\ fst (BayesianEstimator.estimate (real_tensor d x_t)
              (BayesianEstimator.Build (real_tensor d x') (real_vector fitness') alpha
                                       "uniform" h))
       = Ret x0_est.
Proof.
  intros Hx Hf Hx' Hf' Hp Ha Hxt.
  destruct (estimate_real n d m x fitness alpha h x_t Hx Hf Ha Hxt) as (out & He & Hs & Hent).
  destruct (estimate_real n d m x' fitness' alpha h x_t Hx' Hf' Ha Hxt)
    as (out' & He' & Hs' & Hent').
  exists out. rewrite He, He'. split; [reflexivity |]. simpl. f_equal.
  apply (tensor_ext _ _ m d); try assumption.
  intros j k Hj Hk. destruct Hxt as [Hm _].
  destruct (nth_error x_t j) as [q |] eqn:Eq.
  2:{ apply nth_error_None in Eq. lia. }
  rewrite (Hent j k q Eq Hk), (Hent' j k q Eq Hk). do 4 f_equal.
  - unfold spec_num, spec_weights. rewrite !zip_with_zip_with_combine.
    apply rsum_Permutation. now apply Permutation_map.
  - unfold spec_den, spec_weights. rewrite !zip_with_combine. f_equal.
    apply rsum_Permutation. now apply Permutation_map.
Qed.

(** X14 for two samples stored in either order. *)
Lemma estimate_population_order_witness :
  exists x0_est,
    fst (BayesianEstimator.estimate (real_tensor 1 [[0]])
           (BayesianEstimator.Build (real_tensor 1 [[0]; [1]]) (real_vector [1; 0]) (1 / 2)
                                    "uniform" (1 / 10)))
    = Ret x0_est
    /\ fst (BayesianEstimator.estimate (real_tensor 1 [[0]])
              (BayesianEstimator.Build (real_tensor 1 [[1]; [0]]) (real_vector [0; 1]) (1 / 2)
                                       "uniform" (1 / 10)))
       = Ret x0_est.
Proof.
  apply (estimate_population_order 2 1 1 [[0]; [1]] [[1]; [0]] [1; 0] [0; 1] (1 / 2) (1 / 10)
           [[0]]).
  - split; [reflexivity | repeat constructor].
  - reflexivity.
  - split; [reflexivity | repeat constructor].
  - reflexivity.
  - apply perm_swap.
  - lra.
  - split; [reflexivity | repeat constructor].
Defined.

(** ** Further properties of the generator *)

Lemma ddim_step_none_raises (xt x0 : tensor) (alphas : R * R) (rng : nat -> nat -> C) :
  exists e, ddim_step xt x0 alphas None rng = Raise e.
Proof.
  destruct alphas as [a ap]. unfold ddim_step.
  destruct (ddpm_sigma a ap) as [s | e]; simpl; eauto.
Qed.

Lemma call_state (x_t : tensor) (self : BayesianEstimator.t) :
  snd (BayesianEstimator.call x_t self) = self.
Proof.
  unfold BayesianEstimator.call, BayesianEstimator.estimate, BayesianEstimator.density,
    mbind, get, mret, mraise; simpl.
  now destruct (String.eqb (BayesianEstimator.density_method self) "uniform").
Qed.

(** X15.  [generate] changes nothing in the generator: whatever it returns or
    raises, the generator and the estimator it owns (population, fitness,
    schedule coefficients, flags) are afterwards as they were before. *)
Theorem generate_frame (normalize : tensor -> outcome tensor) (x : tensor)
    (noise : option R) (elite_rate : R) (return_x0 : bool) (rng : nat -> nat -> C)
    (self : BayesianGenerator.t) :
  snd (BayesianGenerator.generate normalize x noise elite_rate return_x0 rng self) = self.
Proof.
  unfold BayesianGenerator.generate, BayesianGenerator.on_estimator, mbind, get, lift, mret.
  pose proof (call_state x (BayesianGenerator.estimator self)) as Hs.
  destruct (BayesianEstimator.call x (BayesianGenerator.estimator self)) as [[x0_est | e] s];
    simpl in Hs; subst s.
  - assert (Hset : BayesianGenerator.set_estimator self (BayesianGenerator.estimator self)
                   = self) by now destruct self.
    rewrite Hset. cbn -[ddim_step].
    destruct (ddim_step x x0_est
                (BayesianGenerator.alpha self, BayesianGenerator.alpha_past self) noise rng)
      as [x_next | e]; cbn -[ddim_step]; [| reflexivity].
    destruct (normalize x_next) as [x_next' | e]; cbn; [| reflexivity].
    now destruct return_x0.
  - now destruct self.
Qed.

(** X16.  [generate] called without a noise scale ([noise=None]) never
    returns: whatever the generator, the query and [normalize] are, it raises
    an exception, that of the estimator or that of [ddim_step]. *)
Theorem generate_noise_unset (normalize : tensor -> outcome tensor) (x : tensor)
    (elite_rate : R) (return_x0 : bool) (rng : nat -> nat -> C)
    (self : BayesianGenerator.t) :
  exists e,
    fst (BayesianGenerator.generate normalize x None elite_rate return_x0 rng self) = Raise e.
Proof.
  rewrite generate_value.
  destruct (fst (BayesianEstimator.call x (BayesianGenerator.estimator self)))
    as [x0_est | e]; cbn -[ddim_step]; [| eauto].
  destruct (ddim_step_none_raises x x0_est
              (BayesianGenerator.alpha self, BayesianGenerator.alpha_past self) rng)
    as [e He].
  rewrite He. simpl. eauto.
Qed.

(** X17.  [return_x0] only adds the origin estimate to the result: when
    [generate] returns [x_next] with [return_x0=False], it returns the pair of
    the same [x_next] and the estimate [self.estimator(x)] with
    [return_x0=True], and when one call raises the other raises the same
    exception. *)
Theorem generate_return_x0 (normalize : tensor -> outcome tensor) (x : tensor)
    (noise : option R) (elite_rate : R) (rng : nat -> nat -> C) (self : BayesianGenerator.t) :
  match fst (BayesianGenerator.generate normalize x noise elite_rate false rng self) with
  | Ret (BayesianGenerator.Next x_next) =>
      exists x0_est,
        fst (BayesianEstimator.call x (BayesianGenerator.estimator self)) = Ret x0_est
        /\ fst (BayesianGenerator.generate normalize x noise elite_rate true rng self)
           = Ret (BayesianGenerator.NextAndOrigin x_next x0_est)
  | Ret (BayesianGenerator.NextAndOrigin _ _) => False
  | Raise e =>
      fst (BayesianGenerator.generate normalize x noise elite_rate true rng self) = Raise e
  end.
Proof.
  rewrite !generate_value.
  destruct (fst (BayesianEstimator.call x (BayesianGenerator.estimator self)))
    as [x0_est | e]; cbn -[ddim_step]; [| reflexivity].
  destruct (ddim_step x x0_est
              (BayesianGenerator.alpha self, BayesianGenerator.alpha_past self) noise rng)
    as [x_next | e]; cbn -[ddim_step]; [| reflexivity].
  destruct (normalize x_next) as [x_next' | e]; cbn; [| reflexivity].
  eauto.
Qed.

(** X18.  Constructing a [BayesianGenerator] raises [NotImplementedError]
    exactly when the density method is not ['uniform'] (the exception of the
    estimator's constructor); otherwise the generator keeps both schedule
    coefficients and owns an estimator over the same samples and fitness at
    the first coefficient, [alpha_t]. *)
Theorem generator_init (x : tensor) (fitness : list elt) (alpha alpha_past : R)
    (density : string) (h : R) (elite_strategy : bool) :
  (density = "uniform"%string
   /\ BayesianGenerator.init x fitness (alpha, alpha_past) density h elite_strategy
      = Ret (BayesianGenerator.Build x fitness elite_strategy alpha alpha_past
               (BayesianEstimator.Build x fitness alpha density h)))
  \/ (density <> "uniform"%string
      /\ BayesianGenerator.init x fitness (alpha, alpha_past) density h elite_strategy
         = Raise NotImplementedError).
Proof.
  unfold BayesianGenerator.init, BayesianEstimator.init; simpl.
  destruct (String.eqb_spec density "uniform") as [E | Ne]; simpl.
  - left. now split.
  - right. now split.
Qed.
